(** * A schema-driven reverse-proxy gateway (run_mcp_server.py)

    Shallow embedding of the schema fetch, the route builder and the
    forwarding handler of [run_mcp_server.py], followed by the properties
    of the natural-language specification that concern them.  The builder
    of the sibling [mcp_proxy_server.py] and the schema fetch of
    [mcp_config_standalone.py] are embedded next to them.

    Python objects are modelled as the code sees them: a [dict] is an
    association list in insertion order with unique keys, a [str] is a
    [string], [bytes] is a list of bytes, an exception is a constructor of
    a result type.  The objects handed to the code by Starlette and httpx
    (request, query parameters, headers, response) are modelled by the
    observations the code makes of them. *)

From Stdlib Require Import ZArith List String Ascii Bool Lia Arith Permutation.
From Stdlib Require Import Floats.PrimFloat.
From Stdlib Require Strings.Byte.
Import ListNotations.
Open Scope string_scope.

Set Implicit Arguments.
Set Warnings "-register-all".

(* ================================================================== *)
(** ** Python values *)

(** The values a decoded JSON document or a request body can take.
    [json.loads] yields [None], [bool], [int], [float], [str], [list] and
    [dict]; [request.body()] yields [bytes]. *)
Inductive pyvalue : Type :=
| PyNone
| PyBool (b : bool)
| PyInt (z : Z)
| PyFloat (f : float)
| PyStr (s : string)
| PyBytes (b : list Byte.byte)
| PyList (l : list pyvalue)
| PyDict (d : list (string * pyvalue)).

(** [bool(v)]: Python truthiness. *)
Definition truthy (v : pyvalue) : bool :=
  match v with
  | PyNone => false
  | PyBool b => b
  | PyInt z => negb (z =? 0)%Z
  | PyFloat f => negb (PrimFloat.eqb f 0%float)
  | PyStr s => negb (s =? "")
  | PyBytes b => match b with [] => false | _ :: _ => true end
  | PyList l => match l with [] => false | _ :: _ => true end
  | PyDict d => match d with [] => false | _ :: _ => true end
  end.

(** [isinstance(v, dict)]. *)
Definition is_dict (v : pyvalue) : bool :=
  match v with PyDict _ => true | _ => false end.

(** [v is not None]: whether a keyword argument of [client.request] is set. *)
Definition is_set (v : pyvalue) : bool :=
  match v with PyNone => false | _ => true end.

(** A computation that returns a value or raises an exception. *)
Inductive result (E A : Type) : Type :=
| Ok (a : A)
| Raise (e : E).
Arguments Ok {E A} a.
Arguments Raise {E A} e.

(** A [for] loop whose body may raise: the state when the loop ends, or
    what the first raising iteration raises. *)
Fixpoint for_each {A St X} (body : St -> A -> result X St) (l : list A) (st : St)
    : result X St :=
  match l with
  | [] => Ok st
  | a :: l' =>
      match body st a with
      | Ok st' => for_each body l' st'
      | Raise e => Raise e
      end
  end.

(** The built-in exceptions that leave the handler uncaught. *)
Inductive PyError : Type :=
| TypeError
| RuntimeError
| ValueError.

(** Whether [json.dumps(v, allow_nan=False)] accepts the value: no float
    in it is [nan], [inf] or [-inf]. *)
Fixpoint json_finite (v : pyvalue) : bool :=
  match v with
  | PyFloat f => PrimFloat.is_finite f
  | PyList l => forallb json_finite l
  | PyDict d => forallb (fun kv => json_finite (snd kv)) d
  | _ => true
  end.

(* ================================================================== *)
(** ** Python dictionaries *)

(** A [dict] with [str] keys, in insertion order. *)
Definition dict (V : Type) : Type := list (string * V).

(** [d.get(k)] / [d[k]]. *)
Fixpoint dict_get {V} (k : string) (d : dict V) : option V :=
  match d with
  | [] => None
  | (k', v) :: d' => if k' =? k then Some v else dict_get k d'
  end.

(** [k in d]. *)
Definition dict_mem {V} (k : string) (d : dict V) : bool :=
  match dict_get k d with Some _ => true | None => false end.

(** [d[k] = v]: overwrite in place when the key exists, append otherwise. *)
Fixpoint dict_set {V} (k : string) (v : V) (d : dict V) : dict V :=
  match d with
  | [] => [(k, v)]
  | (k', v') :: d' =>
      if k' =? k then (k', v) :: d' else (k', v') :: dict_set k v d'
  end.

(** [d.keys()]. *)
Definition dict_keys {V} (d : dict V) : list string := map fst d.

(** The invariant of a Python [dict]: no key occurs twice. *)
Definition dict_wf {V} (d : dict V) : Prop := NoDup (dict_keys d).

(* ================================================================== *)
(** ** Python string methods *)

(** [s.startswith(p)]. *)
Fixpoint str_startswith (s p : string) {struct p} : bool :=
  match p with
  | EmptyString => true
  | String c p' =>
      match s with
      | EmptyString => false
      | String c' s' => Ascii.eqb c' c && str_startswith s' p'
      end
  end.

(** Scanning loop of [s.replace(old, new)] for a non-empty [old]:
    [skip] counts the characters of a match still to be consumed. *)
Fixpoint replace_from (old new : string) (skip : nat) (s : string) : string :=
  match s with
  | EmptyString => EmptyString
  | String c s' =>
      match skip with
      | S k => replace_from old new k s'
      | O =>
          if str_startswith s old
          then new ++ replace_from old new (length old - 1) s'
          else String c (replace_from old new 0 s')
      end
  end.

(** With an empty [old], Python inserts [new] before every character and
    at the end. *)
Fixpoint replace_empty (new s : string) : string :=
  match s with
  | EmptyString => new
  | String c s' => new ++ String c (replace_empty new s')
  end.

(** [s.replace(old, new)]: every non-overlapping occurrence, left to right. *)
Definition str_replace (s old new : string) : string :=
  match old with
  | EmptyString => replace_empty new s
  | String _ _ => replace_from old new 0 s
  end.

(** [c in chars]. *)
Fixpoint in_chars (c : ascii) (chars : string) : bool :=
  match chars with
  | EmptyString => false
  | String c' chars' => Ascii.eqb c' c || in_chars c chars'
  end.

(** [s.lstrip(chars)]. *)
Fixpoint str_lstrip (s chars : string) : string :=
  match s with
  | EmptyString => EmptyString
  | String c s' => if in_chars c chars then str_lstrip s' chars else s
  end.

(** [s.rstrip(chars)]. *)
Fixpoint str_rstrip (s chars : string) : string :=
  match s with
  | EmptyString => EmptyString
  | String c s' =>
      match str_rstrip s' chars with
      | EmptyString => if in_chars c chars then EmptyString else String c EmptyString
      | r => String c r
      end
  end.

(** [s.strip(chars)]. *)
Definition str_strip (s chars : string) : string :=
  str_rstrip (str_lstrip s chars) chars.

(** [c.upper()] on an ASCII letter. *)
Definition ascii_upper (c : ascii) : ascii :=
  let n := nat_of_ascii c in
  if ((97 <=? n) && (n <=? 122))%nat then ascii_of_nat (n - 32) else c.

(** [s.upper()] (ASCII; the code applies it to the five method names). *)
Fixpoint str_upper (s : string) : string :=
  match s with
  | EmptyString => EmptyString
  | String c s' => String (ascii_upper c) (str_upper s')
  end.

(** [s in l] for a list of strings. *)
Definition str_in (s : string) (l : list string) : bool :=
  existsb (String.eqb s) l.

(* ================================================================== *)
(** ** The interface description *)

(** One described operation: [operation.get("operationId")] and the
    metadata the builder does not interpret. *)
Record Operation : Type := {
  operationId : option string;
  metadata : dict pyvalue
}.

(** [paths[path]]: method name to operation. *)
Definition PathItem : Type := dict Operation.

(** The fetched document: [openapi_schema.get("info", {}).get("title")]
    and [openapi_schema.get("paths", {})]. *)
Record Schema : Type := {
  info_title : option string;
  paths : dict PathItem
}.

(* ================================================================== *)
(** ** Route table *)

(** The closure returned by [create_proxy_handler(method, path_template)]
    inside [create_proxy_routes(app, openapi_schema, target_url)]: the
    three captured values. *)
Record Handler : Type := {
  h_target_url : string;
  h_method : string;
  h_path_template : string
}.

(** One route registered on the FastAPI application. *)
Record Route : Type := {
  route_verb : string;
  route_path : string;
  route_operation_id : string;
  route_handler : Handler
}.

(** The proxy application: its title and its registered routes. *)
Record FastAPI : Type := {
  app_title : string;
  app_routes : list Route
}.

(** *** Path compilation (Starlette, [compile_path])

    Registering a route compiles its path.  The parameters of the path are
    the matches of [PARAM_REGEX] -- an opening brace, an identifier (a letter
    or underscore, then letters, digits and underscores), optionally a colon
    and a second identifier, a closing brace -- found from left to right
    without overlap; the compilation asserts that the convertor of each is
    known and raises when a name occurs twice. *)

Definition is_ident_start (c : ascii) : bool :=
  let n := nat_of_ascii c in
  (((65 <=? n) && (n <=? 90)) || ((97 <=? n) && (n <=? 122)) || (n =? 95))%nat.

Definition is_ident_char (c : ascii) : bool :=
  let n := nat_of_ascii c in
  (is_ident_start c || ((48 <=? n) && (n <=? 57)))%nat.

(** The longest run of identifier characters at the start of a text, and
    what follows it. *)
Fixpoint span_ident_chars (s : string) : string * string :=
  match s with
  | EmptyString => (EmptyString, EmptyString)
  | String c s' =>
      if is_ident_char c
      then let '(run, rest) := span_ident_chars s' in (String c run, rest)
      else (EmptyString, s)
  end.

(** An identifier at the start of a text, and what follows it. *)
Definition take_ident (s : string) : option (string * string) :=
  match s with
  | EmptyString => None
  | String c s' =>
      if is_ident_start c
      then let '(run, rest) := span_ident_chars s' in Some (String c run, rest)
      else None
  end.

(** A match of the parameter pattern at the start of a text: the name, the
    convertor type ([str] when none is written) and what follows. *)
Definition match_param (s : string) : option (string * string * string) :=
  match s with
  | String "{" s1 =>
      match take_ident s1 with
      | Some (name, String "}" rest) => Some (name, "str", rest)
      | Some (name, String ":" s2) =>
          match take_ident s2 with
          | Some (convertor_type, String "}" rest) => Some (name, convertor_type, rest)
          | _ => None
          end
      | _ => None
      end
  | _ => None
  end.

(** [PARAM_REGEX.finditer(path)]: the name and convertor type of every
    match; [skip] counts the characters of a match still to be passed. *)
Fixpoint find_params (skip : nat) (s : string) : list (string * string) :=
  match s with
  | EmptyString => []
  | String _ s' =>
      match skip with
      | S k => find_params k s'
      | O =>
          match match_param s with
          | Some (name, convertor_type, rest) =>
              (name, convertor_type) :: find_params (length s' - length rest) s'
          | None => find_params 0 s'
          end
      end
  end.

Definition CONVERTOR_TYPES : list string := ["str"; "path"; "int"; "float"; "uuid"].

(** What [compile_path] raises: the failed assertion on the convertor
    type, or [ValueError] with the duplicated parameter names. *)
Inductive RouteError : Type :=
| UnknownConvertor (convertor_type : string)
| DuplicatedParams (names : list string).

(** The loop of [compile_path] over the matches: [seen] are the keys of
    [param_convertors], [duplicated] the names met again, each once, here
    in the order in which they are met again. *)
Fixpoint check_params (seen duplicated : list string) (params : list (string * string))
    : result RouteError (list string) :=
  match params with
  | [] =>
      match duplicated with
      | [] => Ok seen
      | _ :: _ => Raise (DuplicatedParams duplicated)
      end
  | (param_name, convertor_type) :: params' =>
      if str_in convertor_type CONVERTOR_TYPES then
        if str_in param_name seen then
          check_params seen
            (if str_in param_name duplicated then duplicated
             else (duplicated ++ [param_name])%list) params'
        else check_params (seen ++ [param_name])%list duplicated params'
      else Raise (UnknownConvertor convertor_type)
  end.

(** [compile_path(path)]: the parameter names of the path, or the
    exception. *)
Definition compile_path (path : string) : result RouteError (list string) :=
  check_params [] [] (find_params 0 path).

(** [app.get(path, operation_id=...)(handler)] and its siblings: the route
    is appended once its path is compiled. *)
Definition add_api_route (verb path operation_id : string) (h : Handler)
    (app : FastAPI) : result RouteError FastAPI :=
  match compile_path path with
  | Raise e => Raise e
  | Ok _ =>
      Ok {| app_title := app_title app;
            app_routes := (app_routes app ++
              [{| route_verb := verb; route_path := path;
                  route_operation_id := operation_id; route_handler := h |}])%list |}
  end.

(** The five method names of the inner loop, in its order. *)
Definition METHODS : list string := ["get"; "post"; "put"; "delete"; "patch"].

(** [path.replace('/', '_').replace('{', '').replace('}', '').strip('_')]. *)
Definition normalized_path (path : string) : string :=
  str_strip
    (str_replace (str_replace (str_replace path "/" "_") "{" "") "}" "")
    "_".

(** The generated identifier, [f"{method}_{...}"]. *)
Definition derive_operation_id (method path : string) : string :=
  method ++ "_" ++ normalized_path path.

(** [operation.get("operationId")], replaced by the generated identifier
    when it is falsy ([None] or the empty string). *)
Definition operation_id_of (method path : string) (operation : Operation) : string :=
  match operationId operation with
  | Some declared =>
      if negb (declared =? "") then declared
      else derive_operation_id method path
  | None => derive_operation_id method path
  end.

(** [create_proxy_handler(method, path_template)]. *)
Definition create_proxy_handler (target_url method path_template : string) : Handler :=
  {| h_target_url := target_url; h_method := method;
     h_path_template := path_template |}.

(** Body of the inner loop: one method name of one path.  An exception
    of the registration leaves the loop with the application as it is at
    that point. *)
Definition register_method (target_url path : string) (path_item : PathItem)
    (st : FastAPI * nat) (method : string)
    : result (RouteError * FastAPI) (FastAPI * nat) :=
  let '(app, route_count) := st in
  match dict_get method path_item with
  | Some operation =>
      let operation_id := operation_id_of method path operation in
      let handler := create_proxy_handler target_url (str_upper method) path in
      let registered :=
        if method =? "get" then add_api_route "GET" path operation_id handler app
        else if method =? "post" then add_api_route "POST" path operation_id handler app
        else if method =? "put" then add_api_route "PUT" path operation_id handler app
        else if method =? "delete" then add_api_route "DELETE" path operation_id handler app
        else if method =? "patch" then add_api_route "PATCH" path operation_id handler app
        else Ok app in
      match registered with
      | Ok app' => Ok (app', S route_count)
      | Raise e => Raise (e, app)
      end
  | None => Ok st
  end.

(** Body of the outer loop: one entry of [paths.items()]. *)
Definition register_path (target_url : string) (st : FastAPI * nat)
    (entry : string * PathItem) : result (RouteError * FastAPI) (FastAPI * nat) :=
  for_each (register_method target_url (fst entry) (snd entry)) METHODS st.

(** [create_proxy_routes(app, openapi_schema, target_url)]: the application
    after registration and the returned [route_count], or the exception of
    a registration with the application as it is left. *)
Definition create_proxy_routes (app : FastAPI) (openapi_schema : Schema)
    (target_url : string) : result (RouteError * FastAPI) (FastAPI * nat) :=
  for_each (register_path target_url) (paths openapi_schema) (app, 0).

(** The application a build leaves, whether it returns or raises. *)
Definition app_after {E A} (r : result (E * FastAPI) (FastAPI * A)) : FastAPI :=
  match r with
  | Ok (app, _) => app
  | Raise (_, app) => app
  end.

(** The routes a build registers on an empty application: the route
    table. *)
Definition build (target_url : string) (S : Schema) : list Route :=
  app_routes (app_after (create_proxy_routes
                           {| app_title := ""; app_routes := [] |} S target_url)).

(* ================================================================== *)
(** ** The builder of mcp_proxy_server.py *)

Module mcp_proxy_server.

(** What the builder hands to the route decorator.  In this file
    [create_proxy_handler] is declared [async def]: the call
    [create_proxy_handler(method.upper(), path)] returns a coroutine
    object, which the builder does not await, and not the handler
    function. *)
Inductive Endpoint : Type :=
| Function (h : Handler)
| CoroutineObject (method path_template : string).

Definition create_proxy_handler (method path_template : string) : Endpoint :=
  CoroutineObject method path_template.

(** The exceptions of a registration.  FastAPI first reads the signature of
    the endpoint, which raises [TypeError] on an object that is not
    callable; the path is compiled after that. *)
Inductive RegistrationError : Type :=
| NotCallable
| Refused (e : RouteError).

(** [app.get(path, operation_id=...)(handler)] and its siblings, for any
    endpoint: for a function, the registration of [run_mcp_server.py]. *)
Definition add_api_route (verb path operation_id : string) (endpoint : Endpoint)
    (app : FastAPI) : result RegistrationError FastAPI :=
  match endpoint with
  | CoroutineObject _ _ => Raise NotCallable
  | Function h =>
      match add_api_route verb path operation_id h app with
      | Ok app' => Ok app'
      | Raise e => Raise (Refused e)
      end
  end.

(** Body of the inner loop. *)
Definition register_method (path : string) (path_item : PathItem)
    (app : FastAPI) (method : string)
    : result (RegistrationError * FastAPI) FastAPI :=
  match dict_get method path_item with
  | Some operation =>
      let operation_id := operation_id_of method path operation in
      let handler := create_proxy_handler (str_upper method) path in
      let registered :=
        if method =? "get" then add_api_route "GET" path operation_id handler app
        else if method =? "post" then add_api_route "POST" path operation_id handler app
        else if method =? "put" then add_api_route "PUT" path operation_id handler app
        else if method =? "delete" then add_api_route "DELETE" path operation_id handler app
        else if method =? "patch" then add_api_route "PATCH" path operation_id handler app
        else Ok app in
      match registered with
      | Ok app' => Ok app'
      | Raise e => Raise (e, app)
      end
  | None => Ok app
  end.

(** Body of the outer loop. *)
Definition register_path (app : FastAPI) (entry : string * PathItem)
    : result (RegistrationError * FastAPI) FastAPI :=
  for_each (register_method (fst entry) (snd entry)) METHODS app.

(** [create_proxy_routes(app, openapi_schema)]: the application after
    registration, or the exception of a registration with the application
    as it is left. *)
Definition create_proxy_routes (app : FastAPI) (openapi_schema : Schema)
    : result (RegistrationError * FastAPI) FastAPI :=
  for_each register_path (paths openapi_schema) app.

End mcp_proxy_server.

(** The operation identifiers of a route table. *)
Definition operation_ids (table : list Route) : list string :=
  map route_operation_id table.


(* ================================================================== *)
(** ** The inbound request (Starlette) *)

(** [c.lower()] on an ASCII letter. *)
Definition ascii_lower (c : ascii) : ascii :=
  let n := nat_of_ascii c in
  if ((65 <=? n) && (n <=? 90))%nat then ascii_of_nat (n + 32) else c.

(** [s.lower()] (ASCII). *)
Fixpoint str_lower (s : string) : string :=
  match s with
  | EmptyString => EmptyString
  | String c s' => String (ascii_lower c) (str_lower s')
  end.

(** [d[k] = v] for a pair [(k, v)]. *)
Definition set_item {V} (d : dict V) (kv : string * V) : dict V :=
  dict_set (fst kv) (snd kv) d.

(** The dict comprehension [{k: v for k, v in items}]: a repeated key keeps
    the position of its first occurrence and the value of its last. *)
Definition dict_of_items {V} (items : list (string * V)) : dict V :=
  fold_left set_item items [].

(** [dict(m)] for a mapping [m] given by [m.keys()] and [m[k]]. *)
Definition dict_of_mapping {V} (keys : list string) (getitem : string -> option V)
    : dict V :=
  fold_left
    (fun d k => match getitem k with Some v => dict_set k v d | None => d end)
    keys [].

(** [request.query_params]: an immutable multi-dict.  [qp_list] holds the
    pairs of the query string in their order; the mapping interface
    ([keys], [[]]) reads the dictionary built from them. *)
Record QueryParams : Type := { qp_list : list (string * string) }.

Definition qp_dict (q : QueryParams) : dict string := dict_of_items (qp_list q).
Definition qp_keys (q : QueryParams) : list string := dict_keys (qp_dict q).
Definition qp_getitem (q : QueryParams) (k : string) : option string :=
  dict_get k (qp_dict q).

(** [request.headers]: the raw header list of the call, names in lower case.
    [name in headers] and [headers[name]] lower-case [name] and read the
    first matching entry. *)
Definition Headers : Type := list (string * string).

Definition headers_contains (name : string) (hs : Headers) : bool :=
  existsb (fun kv => fst kv =? str_lower name) hs.

Definition headers_getitem (name : string) (hs : Headers) : option string :=
  dict_get (str_lower name) hs.

(** The inbound call as the handler observes it.  [req_json] and [req_body]
    are the outcomes of [await request.json()] and [await request.body()],
    [None] when the call raises; path parameter values are recorded as
    [str(param_value)]. *)
Record Request : Type := {
  req_method : string;
  req_json : option pyvalue;
  req_body : option (list Byte.byte);
  req_query_params : QueryParams;
  req_headers : Headers;
  req_path_params : dict string
}.

(* ================================================================== *)
(** ** The outbound call (httpx) *)

(** The arguments of [client.request(...)]. *)
Record Outbound : Type := {
  out_method : string;
  out_url : string;
  out_params : dict string;
  out_headers : dict string;
  out_json : pyvalue;
  out_content : pyvalue
}.

(** [response.headers]: the header list of the remote's reply, as received.
    Names are compared in lower case; [headers[name]] joins the values of a
    repeated name with a comma; [keys()] lists each lower-cased name once,
    in order of first appearance. *)
Definition httpx_values (name : string) (hs : Headers) : list string :=
  map snd (filter (fun kv => str_lower (fst kv) =? str_lower name) hs).

Definition httpx_getitem (name : string) (hs : Headers) : option string :=
  match httpx_values name hs with
  | [] => None
  | vs => Some (String.concat ", " vs)
  end.

Definition httpx_get (name default : string) (hs : Headers) : string :=
  match httpx_getitem name hs with Some v => v | None => default end.

Definition httpx_keys (hs : Headers) : list string :=
  dict_keys (dict_of_items (map (fun kv => (str_lower (fst kv), tt)) hs)).

(** The remote's reply: [status_code], [headers], [text], and the outcome
    of [response.json()] ([None] when it raises).  Header values are taken
    in Latin-1, the encoding in which a response is emitted. *)
Record Response : Type := {
  status_code : Z;
  resp_headers : Headers;
  resp_text : string;
  resp_json : option pyvalue
}.

(** What [client.request] does: raise [httpx.RequestError] or return. *)
Inductive RemoteOutcome : Type :=
| RequestError (e : string)
| Replied (r : Response).

(** What the handler does: return a [JSONResponse], raise [HTTPException],
    or let another exception through. *)
Inductive HandlerResult : Type :=
| JSONResponse (content : pyvalue) (status : Z) (headers : dict string)
| HTTPException (status : Z) (detail : string)
| Uncaught (e : PyError).

(* ================================================================== *)
(** ** The handler *)

(** Header allow-list of [run_mcp_server.py]. *)
Definition RELAYED_HEADERS : list string := ["authorization"; "content-type"].

(** Reading the body: JSON first, the raw bytes when that raises, nothing
    when that raises too. *)
Definition read_body (request : Request) : pyvalue :=
  if str_in (req_method request) ["POST"; "PUT"; "PATCH"] then
    match req_json request with
    | Some v => v
    | None =>
        match req_body request with
        | Some b => PyBytes b
        | None => PyNone
        end
    end
  else PyNone.

(** [dict(request.query_params)]. *)
Definition relay_query (request : Request) : dict string :=
  dict_of_mapping (qp_keys (req_query_params request))
                  (qp_getitem (req_query_params request)).

(** One iteration of the header loop. *)
Definition relay_header (request : Request) (headers : dict string)
    (header_name : string) : dict string :=
  if headers_contains header_name (req_headers request) then
    match headers_getitem header_name (req_headers request) with
    | Some v => dict_set header_name v headers
    | None => headers
    end
  else headers.

Definition relay_headers (allowed : list string) (request : Request) : dict string :=
  fold_left (relay_header request) allowed [].

(** One iteration of the path loop:
    [target_path.replace(f"{{{param_name}}}", str(param_value))]. *)
Definition substitute_param (target_path : string) (param : string * string) : string :=
  str_replace target_path ("{" ++ fst param ++ "}") (snd param).

Definition substitute_path (path_template : string) (path_params : dict string) : string :=
  fold_left substitute_param path_params path_template.

(** [json=body if body and isinstance(body, dict) else None]. *)
Definition json_argument (body : pyvalue) : pyvalue :=
  if truthy body && is_dict body then body else PyNone.

(** [content=body if body and not isinstance(body, dict) else None]. *)
Definition content_argument (body : pyvalue) : pyvalue :=
  if truthy body && negb (is_dict body) then body else PyNone.

(** The call the handler issues for a request. *)
Definition outbound (allowed : list string) (h : Handler) (request : Request) : Outbound :=
  let body := read_body request in
  let query_params := relay_query request in
  let headers := relay_headers allowed request in
  let target_path := substitute_path (h_path_template h) (req_path_params request) in
  {| out_method := h_method h;
     out_url := h_target_url h ++ target_path;
     out_params := query_params;
     out_headers := headers;
     out_json := json_argument body;
     out_content := content_argument body |}.

(** [{"content": response.text}]. *)
Definition wrap_text (text : string) : pyvalue := PyDict [("content", PyStr text)].

(** The content of the relayed response. *)
Definition response_content (response : Response) : pyvalue :=
  if str_startswith (httpx_get "content-type" "" (resp_headers response))
                     "application/json"
  then match resp_json response with
       | Some v => v
       | None => wrap_text (resp_text response)
       end
  else wrap_text (resp_text response).

(** [dict(response.headers)]. *)
Definition relay_response_headers (response : Response) : dict string :=
  dict_of_mapping (httpx_keys (resp_headers response))
                  (fun k => httpx_getitem k (resp_headers response)).

(** [raise HTTPException(status_code=502, detail=f"...: {e}")]. *)
Definition bad_gateway (e : string) : HandlerResult :=
  HTTPException 502 ("无法连接到 FastAPI 服务: " ++ e).

(** What httpx does with the [content] argument on an [AsyncClient]:
    [bytes] and [str] are sent; another iterable becomes a synchronous
    stream, which the asynchronous client refuses with [RuntimeError]; any
    other value is refused with [TypeError].  Both are raised before
    anything is sent. *)
Definition check_content (content : pyvalue) : result PyError unit :=
  match content with
  | PyNone | PyBytes _ | PyStr _ => Ok tt
  | PyList _ => Raise RuntimeError
  | PyBool _ | PyInt _ | PyFloat _ | PyDict _ => Raise TypeError
  end.

(** What httpx does with the [json] argument: it is encoded with
    [allow_nan=False] (httpx 0.28), which raises [ValueError] on a
    non-finite float. *)
Definition check_json (json : pyvalue) : result PyError unit :=
  if json_finite json then Ok tt else Raise ValueError.

(** [await client.request(...)], for a URL the client accepts: the
    exception raised over the arguments before anything is sent, or what
    the remote does with the call. *)
Definition client_request (o : Outbound) (remote : Outbound -> RemoteOutcome)
    : result PyError RemoteOutcome :=
  match check_content (out_content o), check_json (out_json o) with
  | Raise e, _ => Raise e
  | Ok _, Raise e => Raise e
  | Ok _, Ok _ => Ok (remote o)
  end.

(** [JSONResponse(content=..., status_code=..., headers=...)]: the body is
    rendered on construction with [allow_nan=False], which raises
    [ValueError] on a non-finite float. *)
Definition json_response (content : pyvalue) (status : Z) (headers : dict string)
    : HandlerResult :=
  if json_finite content then JSONResponse content status headers
  else Uncaught ValueError.

(** The handler: build the call, issue it, translate the outcome.  Only
    [httpx.RequestError] is caught. *)
Definition handler (allowed : list string) (h : Handler) (request : Request)
    (remote : Outbound -> RemoteOutcome) : HandlerResult :=
  match client_request (outbound allowed h request) remote with
  | Ok (Replied response) =>
      json_response (response_content response) (status_code response)
                    (relay_response_headers response)
  | Ok (RequestError e) => bad_gateway e
  | Raise e => Uncaught e
  end.

(* ================================================================== *)
(** ** Schema fetch and assembly *)

(** What [client.get(f"{api_url}/openapi.json")] meets: a transport error
    (connection, timeout), or a reply with its status and the outcome of
    [response.json()] ([None] when the body does not decode). *)
Inductive FetchReply : Type :=
| FetchRequestError (e : string)
| FetchReplied (status : Z) (body : option Schema).

(** The exceptions that leave [fetch_openapi_schema]. *)
Inductive FetchFailure : Type :=
| CannotConnect (api_url e : string)
| BadStatus (status : Z)
| JSONDecodeError.

(** [response.is_success]: [raise_for_status] returns on 2xx and raises
    [HTTPStatusError] otherwise. *)
Definition is_success (status : Z) : bool :=
  ((200 <=? status) && (status <=? 299))%Z.

Definition fetch_openapi_schema (api_url : string) (reply : FetchReply)
    : result FetchFailure Schema :=
  match reply with
  | FetchRequestError e => Raise (CannotConnect api_url e)
  | FetchReplied status body =>
      if is_success status then
        match body with
        | Some schema => Ok schema
        | None => Raise JSONDecodeError
        end
      else Raise (BadStatus status)
  end.

Definition FASTAPI_SERVICE_URL : string := "http://localhost:6673".

(** [openapi_schema.get('info', {}).get('title', 'API')]. *)
Definition schema_title (schema : Schema) : string :=
  match info_title schema with Some t => t | None => "API" end.

(** [setup_mcp_server()]: [None] when the fetch raises; otherwise the proxy
    application with its routes, handed to the MCP layer ([mcp_mount]:
    [FastApiMCP(...)] and [mount_http], [None] when they raise).  The
    routes are created outside any [try]: an exception of the builder
    leaves [setup_mcp_server]. *)
Definition setup_mcp_server (reply : FetchReply)
    (mcp_mount : FastAPI -> option FastAPI) : result RouteError (option FastAPI) :=
  match fetch_openapi_schema FASTAPI_SERVICE_URL reply with
  | Raise _ => Ok None
  | Ok openapi_schema =>
      let proxy_app :=
        {| app_title := "MCP Server for " ++ schema_title openapi_schema;
           app_routes := [] |} in
      match create_proxy_routes proxy_app openapi_schema FASTAPI_SERVICE_URL with
      | Ok (proxy_app, _) => Ok (mcp_mount proxy_app)
      | Raise (e, _) => Raise e
      end
  end.

(** The routes that exist after assembly. *)
Definition registered_routes (started : result RouteError (option FastAPI))
    : list Route :=
  match started with
  | Ok (Some app) => app_routes app
  | _ => []
  end.

(* ================================================================== *)
(** ** Reference notions: the specification's wording, and auxiliary readings *)

(** [s.split(sep)] for a one-character separator. *)
Fixpoint split_on (sep : ascii) (s : string) : list string :=
  match s with
  | EmptyString => [EmptyString]
  | String c s' =>
      if Ascii.eqb c sep then EmptyString :: split_on sep s'
      else match split_on sep s' with
           | h :: t => String c h :: t
           | [] => [String c EmptyString]
           end
  end.

Definition is_brace (c : ascii) : bool :=
  Ascii.eqb c "{" || Ascii.eqb c "}".

(** Deleting the placeholder braces of a text. *)
Fixpoint drop_braces (s : string) : string :=
  match s with
  | EmptyString => EmptyString
  | String c s' => if is_brace c then drop_braces s' else String c (drop_braces s')
  end.

(** The normalisation as the specification words it: separators stripped,
    repeated separators collapsed, braces stripped, the remaining pieces
    joined by single underscores. *)
Definition spec_normalized_path (path : string) : string :=
  String.concat "_"
    (map drop_braces
         (filter (fun piece => negb (piece =? "")) (split_on "/" path))).

(** The identifier as the specification words it. *)
Definition spec_derive (method path : string) : string :=
  method ++ "_" ++ spec_normalized_path path.

(** Character-wise reading of the builder's three replacements. *)
Fixpoint flatten_path (path : string) : string :=
  match path with
  | EmptyString => EmptyString
  | String c s' =>
      if Ascii.eqb c "/" then String "_" (flatten_path s')
      else if is_brace c then flatten_path s'
      else String c (flatten_path s')
  end.

(** Replacing one character by a text, character by character. *)
Fixpoint subst_char (c : ascii) (new s : string) : string :=
  match s with
  | EmptyString => EmptyString
  | String c' s' =>
      if Ascii.eqb c' c then new ++ subst_char c new s'
      else String c' (subst_char c new s')
  end.

(** No separator occurs in the text. *)
Fixpoint slash_free (s : string) : bool :=
  match s with
  | EmptyString => true
  | String c s' => negb (Ascii.eqb c "/") && slash_free s'
  end.

(** A path segment: non-empty, without separator. *)
Definition segment_regular (s : string) : bool :=
  negb (s =? "") && slash_free s.

(** The methods that carry a body. *)
Definition BODY_METHODS : list string := ["POST"; "PUT"; "PATCH"].

(** Body relaying as the specification words it: with a body method, the
    decoded JSON value when decoding succeeds and the raw bytes instead
    when it fails; nothing otherwise. *)
Definition spec_body_relay (request : Request) (o : Outbound) : Prop :=
  if str_in (req_method request) BODY_METHODS then
    match req_json request, req_body request with
    | Some v, _ => out_json o = v /\ out_content o = PyNone
    | None, Some b => out_json o = PyNone /\ out_content o = PyBytes b
    | None, None => out_json o = PyNone /\ out_content o = PyNone
    end
  else out_json o = PyNone /\ out_content o = PyNone.

(** [isinstance(v, bytes)]; never the case of a decoded JSON value. *)
Definition is_bytes (v : pyvalue) : bool :=
  match v with PyBytes _ => true | _ => false end.

(** The same call with other inbound headers. *)
Definition with_headers (request : Request) (hs : Headers) : Request :=
  {| req_method := req_method request;
     req_json := req_json request;
     req_body := req_body request;
     req_query_params := req_query_params request;
     req_headers := hs;
     req_path_params := req_path_params request |}.

(** Two header lists that give every name of [allowed] the same value. *)
Definition agree_on (allowed : list string) (hs hs' : Headers) : Prop :=
  forall name, In name allowed -> headers_getitem name hs' = headers_getitem name hs.

(** The names of a list, each once, in order of first appearance;
    [seen] holds the names already met. *)
Fixpoint first_occurrences (seen names : list string) : list string :=
  match names with
  | [] => []
  | k :: names' =>
      if str_in k seen then first_occurrences seen names'
      else k :: first_occurrences (seen ++ [k]) names'
  end.

(** The lower-cased names of a header list. *)
Definition header_names (hs : Headers) : list string :=
  map (fun kv => str_lower (fst kv)) hs.

(** Every name of the header list is in lower case. *)
Definition lowercase_names (hs : Headers) : bool :=
  forallb (fun kv => str_lower (fst kv) =? fst kv) hs.

(** A path template as literal text and named placeholders. *)
Inductive Segment : Type :=
| Lit (text : string)
| Hole (name : string).

Definition placeholder (name : string) : string := "{" ++ name ++ "}".

Definition render_segment (seg : Segment) : string :=
  match seg with
  | Lit text => text
  | Hole name => placeholder name
  end.

Fixpoint join_all (l : list string) : string :=
  match l with
  | [] => EmptyString
  | s :: l' => s ++ join_all l'
  end.

(** The path [/s1/s2/.../sn] of a list of segments. *)
Definition path_of_segments (segs : list string) : string :=
  join_all (map (fun s => "/" ++ s) segs).

(** The text of a template. *)
Definition render_template (segs : list Segment) : string :=
  join_all (map render_segment segs).

(** Substitution as the specification words it: every placeholder with a
    value is replaced by that value, every other one is left as it is. *)
Definition spec_fill_segment (params : dict string) (seg : Segment) : string :=
  match seg with
  | Lit text => text
  | Hole name =>
      match dict_get name params with
      | Some value => value
      | None => placeholder name
      end
  end.

Definition spec_substitute (segs : list Segment) (params : dict string) : string :=
  join_all (map (spec_fill_segment params) segs).

(** Filling the placeholders of one name. *)
Definition fill_one (name value : string) (seg : Segment) : Segment :=
  match seg with
  | Lit text => Lit text
  | Hole n => if name =? n then Lit value else Hole n
  end.

(** No brace occurs in the text. *)
Fixpoint brace_free (s : string) : bool :=
  match s with
  | EmptyString => true
  | String c s' => negb (is_brace c) && brace_free s'
  end.

Definition segment_ok (seg : Segment) : bool :=
  match seg with
  | Lit text => brace_free text
  | Hole name => brace_free name
  end.

Definition params_ok (params : dict string) : bool :=
  forallb (fun kv => brace_free (fst kv) && brace_free (snd kv)) params.

(* ================================================================== *)
(** ** The route table as a function of the schema *)

(** The route registered for a method found under a path. *)
Definition route_for (target_url path method : string) (operation : Operation) : Route :=
  {| route_verb := str_upper method;
     route_path := path;
     route_operation_id := operation_id_of method path operation;
     route_handler := create_proxy_handler target_url (str_upper method) path |}.

Definition routes_of_method (target_url path : string) (path_item : PathItem)
    (method : string) : list Route :=
  match dict_get method path_item with
  | Some operation => [route_for target_url path method operation]
  | None => []
  end.

Definition routes_of_path (target_url : string) (entry : string * PathItem) : list Route :=
  flat_map (routes_of_method target_url (fst entry) (snd entry)) METHODS.

Definition routes_of_schema (target_url : string) (S : Schema) : list Route :=
  flat_map (routes_of_path target_url) (paths S).

(** Every (path, method) pair of the document, in document order. *)
Definition all_pairs (S : Schema) : list (string * string) :=
  flat_map (fun entry => map (fun mo => (fst entry, fst mo)) (snd entry)) (paths S).

(** The pairs whose method is one of the five. *)
Definition recognised_pairs (S : Schema) : list (string * string) :=
  filter (fun pm => str_in (snd pm) METHODS) (all_pairs S).

(** The pair a route stands for: its path and its method name as the
    document spells it. *)
Definition route_key (r : Route) : string * string :=
  (route_path r, str_lower (route_verb r)).

(** The document is made of dictionaries. *)
Definition schema_wf (S : Schema) : Prop :=
  dict_wf (paths S) /\ Forall (fun entry => dict_wf (snd entry)) (paths S).

(** No operation of the document declares a (non-empty) identifier. *)
Definition declares_no_identifier (S : Schema) : bool :=
  forallb (fun entry =>
    forallb (fun mo =>
      match operationId (snd mo) with
      | Some declared => declared =? ""
      | None => true
      end) (snd entry)) (paths S).

Definition empty_app : FastAPI := {| app_title := ""; app_routes := [] |}.

(* ================================================================== *)
(** ** Example inputs *)

(** Two paths that differ only in a separator and an underscore, neither
    operation declaring an identifier. *)
Definition undeclared : Operation := {| operationId := None; metadata := [] |}.

Definition declared_as (identifier : string) : Operation :=
  {| operationId := Some identifier; metadata := [] |}.

Definition colliding_schema : Schema :=
  {| info_title := None;
     paths := [("/a/b", [("get", undeclared)]); ("/a_b", [("get", undeclared)])] |}.

Definition demo_schema : Schema :=
  {| info_title := Some "Demo";
     paths := [("/users/{user_id}",
                [("get", undeclared); ("head", undeclared); ("delete", undeclared)]);
               ("/items", [("post", undeclared)])] |}.


(** The template [/{a}/{b}] and [/items/{id}/sub/{sub_id}]. *)
Definition two_holes : list Segment := [Lit "/"; Hole "a"; Lit "/"; Hole "b"].

Definition items_template : list Segment :=
  [Lit "/items/"; Hole "id"; Lit "/sub/"; Hole "sub_id"].

(** A POST call with the given outcomes of [request.json()] and
    [request.body()], and nothing else. *)
Definition post_request (json : option pyvalue) (body : option (list Byte.byte))
    : Request :=
  {| req_method := "POST"; req_json := json; req_body := body;
     req_query_params := {| qp_list := [] |};
     req_headers := []; req_path_params := [] |}.

(** The body [[1]]: a JSON array. *)
Definition array_request : Request :=
  post_request (Some (PyList [PyInt 1])) (Some (list_byte_of_string "[1]")).

(** The body [{}]: an empty JSON object. *)
Definition empty_object_request : Request :=
  post_request (Some (PyDict [])) (Some (list_byte_of_string "{}")).

(** The double quote character. *)
Definition dquote : string := String (ascii_of_nat 34) EmptyString.

(** The body [{"a": 1}]. *)
Definition object_request : Request :=
  post_request (Some (PyDict [("a", PyInt 1)]))
               (Some (list_byte_of_string ("{" ++ dquote ++ "a" ++ dquote ++ ": 1}"))).

(** A body that is not JSON. *)
Definition text_request : Request :=
  post_request None (Some (list_byte_of_string "hello")).

Definition ping_handler : Handler :=
  create_proxy_handler FASTAPI_SERVICE_URL "POST" "/ping".

(** A GET call carrying the given headers, and nothing else. *)
Definition get_request (hs : Headers) : Request :=
  {| req_method := "GET"; req_json := None; req_body := None;
     req_query_params := {| qp_list := [] |};
     req_headers := hs; req_path_params := [] |}.

Definition inbound_headers : Headers :=
  [("authorization", "Bearer x"); ("host", "local"); ("x-custom", "y")].

Definition varied_headers : Headers :=
  [("host", "elsewhere"); ("authorization", "Bearer x"); ("cookie", "k=v")].







(** A call whose query string repeats a name: [?tag=a&page=2&tag=b]. *)
Definition repeated_query : Request :=
  {| req_method := "GET"; req_json := None; req_body := None;
     req_query_params := {| qp_list := [("tag", "a"); ("page", "2"); ("tag", "b")] |};
     req_headers := []; req_path_params := [] |}.

(** A call whose query string has different names: [?q=x&page=2]. *)
Definition plain_query : Request :=
  {| req_method := "GET"; req_json := None; req_body := None;
     req_query_params := {| qp_list := [("q", "x"); ("page", "2")] |};
     req_headers := []; req_path_params := [] |}.

(** The proxy application of [demo_schema]. *)
Definition demo_app : FastAPI :=
  {| app_title := "MCP Server for Demo";
     app_routes := build FASTAPI_SERVICE_URL demo_schema |}.

(** A remote that answers every call with [200 {"pong": true}]. *)
Definition pong : Response :=
  {| status_code := 200;
     resp_headers := [("content-type", "application/json")];
     resp_text := "{}";
     resp_json := Some (PyDict [("pong", PyBool true)]) |}.

(** A call to [GET /users/7]. *)
Definition user_request : Request :=
  {| req_method := "GET"; req_json := None; req_body := None;
     req_query_params := {| qp_list := [] |};
     req_headers := []; req_path_params := [("user_id", "7")] |}.

(* ================================================================== *)
(** ** Starting the server (run_mcp_server.py, [main]) *)

Definition MCP_SERVER_HOST : string := "0.0.0.0".
Definition MCP_SERVER_PORT : Z := 8000.

(** What [main()] does after [setup_mcp_server()]: hand the application to
    [uvicorn.run] on the configured host and port, or report that the
    server cannot start; an exception of [setup_mcp_server] ends it. *)
Inductive MainOutcome : Type :=
| Serving (app : FastAPI) (host : string) (port : Z)
| NotStarted
| Crashed (e : RouteError).

Definition main (reply : FetchReply) (mcp_mount : FastAPI -> option FastAPI)
    : MainOutcome :=
  match setup_mcp_server reply mcp_mount with
  | Ok (Some proxy_app) => Serving proxy_app MCP_SERVER_HOST MCP_SERVER_PORT
  | Ok None => NotStarted
  | Raise e => Crashed e
  end.

(* ================================================================== *)
(** ** The schema fetch of mcp_config_standalone.py *)

(** What [client.get(f"{base_url}/openapi.json")] meets there: a transport
    error, or a reply with its status, its text and the outcome of
    [response.json()]. *)
Inductive StandaloneReply : Type :=
| StandaloneRequestError (e : string)
| StandaloneReplied (status : Z) (text : string) (body : option Schema).

(** The exceptions that leave [get_openapi_schema]: the transport error,
    which it does not catch; its own [Exception] with the status and the
    text; the decoding error of [response.json()]. *)
Inductive StandaloneFailure : Type :=
| TransportError (e : string)
| SchemaUnavailable (status : Z) (text : string)
| BodyNotJSON.

Definition get_openapi_schema (base_url : string) (reply : StandaloneReply)
    : result StandaloneFailure Schema :=
  match reply with
  | StandaloneRequestError e => Raise (TransportError e)
  | StandaloneReplied status text body =>
      if (status =? 200)%Z then
        match body with
        | Some schema => Ok schema
        | None => Raise BodyNotJSON
        end
      else Raise (SchemaUnavailable status text)
  end.

(** The same exchange as [fetch_openapi_schema] observes it. *)
Definition as_fetch_reply (reply : StandaloneReply) : FetchReply :=
  match reply with
  | StandaloneRequestError e => FetchRequestError e
  | StandaloneReplied status _ body => FetchReplied status body
  end.

(* ================================================================== *)
(** ** Auxiliary notions for the further properties *)

(** [c in s]. *)
Fixpoint occurs (c : ascii) (s : string) : bool :=
  match s with
  | EmptyString => false
  | String c' s' => Ascii.eqb c' c || occurs c s'
  end.

(** [s[0]] and [s[-1]], when [s] is not empty. *)
Definition first_char (s : string) : option ascii :=
  match s with
  | EmptyString => None
  | String c _ => Some c
  end.

Fixpoint last_char (s : string) : option ascii :=
  match s with
  | EmptyString => None
  | String c EmptyString => Some c
  | String _ s' => last_char s'
  end.

(** The methods of [METHODS] found under a path, in the order of [METHODS]. *)
Definition present_methods (item : PathItem) : list string :=
  filter (fun m => dict_mem m item) METHODS.

(** The relayed entry of one header name. *)
Definition header_entry (name : string) (hs : Headers) : dict string :=
  match headers_getitem name hs with
  | Some v => [(name, v)]
  | None => []
  end.

(** Two documents with the same paths in the same order, whose path items
    hold the same operations, possibly in another order. *)
Definition same_operations (S S' : Schema) : Prop :=
  Forall2 (fun entry entry' =>
             fst entry = fst entry' /\ dict_wf (snd entry) /\
             Permutation (snd entry) (snd entry'))
          (paths S) (paths S').

(** [demo_schema] with the method keys of its first path in another order. *)
Definition demo_schema_reordered : Schema :=
  {| info_title := Some "Demo";
     paths := [("/users/{user_id}",
                [("delete", undeclared); ("head", undeclared); ("get", undeclared)]);
               ("/items", [("post", undeclared)])] |}.

(** A document that describes only methods the builder does not know. *)
Definition unrecognised_schema : Schema :=
  {| info_title := None;
     paths := [("/ping", [("head", undeclared); ("options", undeclared)]);
               ("/trace", [])] |}.


(** The proxy application [setup_mcp_server] builds for a schema, before
    it is handed to the MCP layer. *)
Definition proxy_app_of (schema : Schema) : FastAPI :=
  {| app_title := "MCP Server for " ++ schema_title schema;
     app_routes := build FASTAPI_SERVICE_URL schema |}.

(** The same call with another query string. *)
Definition with_query (request : Request) (items : list (string * string)) : Request :=
  {| req_method := req_method request;
     req_json := req_json request;
     req_body := req_body request;
     req_query_params := {| qp_list := items |};
     req_headers := req_headers request;
     req_path_params := req_path_params request |}.

(** The same reply with other headers. *)
Definition with_response_headers (response : Response) (hs : Headers) : Response :=
  {| status_code := status_code response;
     resp_headers := hs;
     resp_text := resp_text response;
     resp_json := resp_json response |}.

(* ================================================================== *)
(** ** What the builder registers before it raises *)

(** The application with further routes appended. *)
Definition extend_app (app : FastAPI) (routes : list Route) : FastAPI :=
  {| app_title := app_title app;
     app_routes := (app_routes app ++ routes)%list |}.

(** The exception a path entry makes the builder raise: that of the
    compilation of its path, once one of the five methods is found under
    it. *)
Definition entry_refused (entry : string * PathItem) : option RouteError :=
  match present_methods (snd entry), compile_path (fst entry) with
  | _ :: _, Raise e => Some e
  | _, _ => None
  end.

(** The entries that come before the first refused one, and its
    exception. *)
Fixpoint registered_entries (entries : list (string * PathItem))
    : list (string * PathItem) * option RouteError :=
  match entries with
  | [] => ([], None)
  | entry :: entries' =>
      match entry_refused entry with
      | Some e => ([], Some e)
      | None =>
          let '(before, refused) := registered_entries entries' in
          (entry :: before, refused)
      end
  end.

(** No path of the document is refused when its routes are registered. *)
Definition routable (S : Schema) : bool :=
  forallb (fun entry => match entry_refused entry with
                        | None => true
                        | Some _ => false
                        end) (paths S).

(** A document whose second path names a parameter twice. *)
Definition refused_schema : Schema :=
  {| info_title := None;
     paths := [("/ok", [("get", undeclared)]);
               ("/{a}/{a}", [("get", undeclared)]);
               ("/later", [("get", undeclared)])] |}.
(* ================================================================== *)
(** * Properties *)

(** ** Dictionaries *)

Section DictFacts.
Context {V : Type}.
Implicit Types (d : dict V) (k : string).

Lemma dict_get_In k v d : dict_get k d = Some v -> In (k, v) d.
Proof.
  induction d as [|[k' v'] d IH]; simpl; [discriminate|].
  destruct (String.eqb_spec k' k) as [->|Hne].
  - intros [= ->]. now left.
  - intros H. right. now apply IH.
Qed.

Lemma dict_get_None k d : dict_get k d = None <-> ~ In k (dict_keys d).
Proof.
  induction d as [|[k' v'] d IH]; simpl.
  - tauto.
  - destruct (String.eqb_spec k' k) as [->|Hne].
    + split; [discriminate|]. intros H. exfalso. apply H. now left.
    + rewrite IH. split.
      * intros H [E|HIn]; [now apply Hne | now apply H].
      * intros H HIn. apply H. now right.
Qed.

Lemma dict_mem_In k d : dict_mem k d = true <-> In k (dict_keys d).
Proof.
  unfold dict_mem. destruct (dict_get k d) eqn:E.
  - split; [intros _|reflexivity].
    apply dict_get_In in E. apply (in_map fst) in E. exact E.
  - split; [discriminate|]. intros H. now apply dict_get_None in E.
Qed.

Lemma In_dict_get k v d : dict_wf d -> In (k, v) d -> dict_get k d = Some v.
Proof.
  unfold dict_wf. induction d as [|[k' v'] d IH]; simpl; [tauto|].
  intros Hwf [E|HIn].
  - injection E as -> ->. now rewrite String.eqb_refl.
  - apply NoDup_cons_iff in Hwf as [Hnotin Hwf].
    destruct (String.eqb_spec k' k) as [->|Hne].
    + exfalso. apply Hnotin. apply (in_map fst) in HIn. exact HIn.
    + now apply IH.
Qed.

Lemma dict_keys_set k v d :
  dict_keys (dict_set k v d) =
  if dict_mem k d then dict_keys d else (dict_keys d ++ [k])%list.
Proof.
  unfold dict_mem. induction d as [|[k' v'] d IH]; simpl; [reflexivity|].
  destruct (String.eqb_spec k' k) as [->|Hne]; simpl; [reflexivity|].
  rewrite IH. now destruct (dict_get k d).
Qed.

Lemma dict_get_set k k' v d :
  dict_get k' (dict_set k v d) = if k =? k' then Some v else dict_get k' d.
Proof.
  induction d as [|[k0 v0] d IH]; simpl.
  - reflexivity.
  - destruct (String.eqb_spec k0 k) as [->|Hne]; simpl.
    + now destruct (k =? k').
    + rewrite IH. destruct (String.eqb_spec k0 k') as [->|Hne'].
      * destruct (String.eqb_spec k k') as [->|_]; [now elim Hne | reflexivity].
      * reflexivity.
Qed.

Lemma dict_set_wf k v d : dict_wf d -> dict_wf (dict_set k v d).
Proof.
  unfold dict_wf. rewrite dict_keys_set. intros Hwf.
  destruct (dict_mem k d) eqn:E; [exact Hwf|].
  apply NoDup_app; [exact Hwf | repeat constructor; simpl; tauto |].
  intros a Ha [<-|[]].
  apply dict_mem_In in Ha. congruence.
Qed.

Lemma dict_set_fresh k v d :
  dict_mem k d = false -> dict_set k v d = (d ++ [(k, v)])%list.
Proof.
  unfold dict_mem. induction d as [|[k' v'] d IH]; simpl; [reflexivity|].
  destruct (String.eqb_spec k' k) as [->|Hne]; [discriminate|].
  intros H. now rewrite IH.
Qed.
End DictFacts.

(** ** The builder's loops *)

Lemma extend_app_nil app : extend_app app [] = app.
Proof. destruct app. unfold extend_app. cbn. now rewrite app_nil_r. Qed.

Lemma extend_app_app app rs rs' :
  extend_app (extend_app app rs) rs' = extend_app app (rs ++ rs').
Proof. unfold extend_app. cbn. now rewrite app_assoc. Qed.

(** One iteration of the inner loop on one of the five names. *)
Lemma register_method_spec target_url path item app n m :
  In m METHODS ->
  register_method target_url path item (app, n) m =
  match dict_get m item with
  | None => Ok (app, n)
  | Some operation =>
      match compile_path path with
      | Ok _ => Ok (extend_app app [route_for target_url path m operation], S n)
      | Raise e => Raise (e, app)
      end
  end.
Proof.
  unfold METHODS. cbn [In]. intros Hm. unfold register_method.
  destruct (dict_get m item) as [operation|]; [|reflexivity].
  repeat destruct Hm as [<-|Hm]; try destruct Hm;
    cbn [String.eqb Ascii.eqb Bool.eqb]; unfold add_api_route.
  all: destruct (compile_path path); reflexivity.
Qed.

Lemma routes_of_absent_methods target_url path (item : PathItem) ms :
  filter (fun m => dict_mem m item) ms = [] ->
  flat_map (routes_of_method target_url path item) ms = [].
Proof.
  induction ms as [|m ms IH]; [reflexivity|].
  cbn [filter flat_map]. unfold routes_of_method at 1, dict_mem at 1.
  destruct (dict_get m item); [discriminate|]. exact IH.
Qed.

(** The inner loop over names of the five: every route of the path, or the
    exception of the compilation at the first method found. *)
Lemma register_methods_spec target_url path item ms : forall app n,
  (forall m, In m ms -> In m METHODS) ->
  for_each (register_method target_url path item) ms (app, n) =
  match compile_path path with
  | Ok _ =>
      Ok (extend_app app (flat_map (routes_of_method target_url path item) ms),
          n + List.length (flat_map (routes_of_method target_url path item) ms))
  | Raise e =>
      match filter (fun m => dict_mem m item) ms with
      | [] => Ok (app, n)
      | _ :: _ => Raise (e, app)
      end
  end.
Proof.
  induction ms as [|m ms IH]; intros app n Hms.
  - cbn [for_each filter flat_map List.length].
    rewrite extend_app_nil, Nat.add_0_r. now destruct (compile_path path).
  - cbn [for_each filter flat_map].
    rewrite register_method_spec by (apply Hms; now left).
    unfold routes_of_method at 1 3, dict_mem at 1.
    destruct (dict_get m item) as [operation|].
    + destruct (compile_path path) as [names|e] eqn:E; [|reflexivity].
      rewrite IH by (intros m' Hm'; apply Hms; now right).
      rewrite extend_app_app. cbn [List.app List.length]. f_equal. f_equal. lia.
    + rewrite IH by (intros m' Hm'; apply Hms; now right). reflexivity.
Qed.

(** One iteration of the outer loop. *)
Lemma register_path_spec target_url app n entry :
  register_path target_url (app, n) entry =
  match entry_refused entry with
  | None =>
      Ok (extend_app app (routes_of_path target_url entry),
          n + List.length (routes_of_path target_url entry))
  | Some e => Raise (e, app)
  end.
Proof.
  unfold register_path, entry_refused, routes_of_path, present_methods.
  rewrite register_methods_spec by auto.
  destruct (compile_path (fst entry)) as [names|e].
  - now destruct (filter _ METHODS).
  - destruct (filter (fun m => dict_mem m (snd entry)) METHODS) eqn:E; [|reflexivity].
    rewrite routes_of_absent_methods by exact E.
    cbn [List.length]. now rewrite extend_app_nil, Nat.add_0_r.
Qed.

(** The outer loop: the routes of the entries before the first refused
    one, then the exception of that entry, if any. *)
Lemma register_paths_spec target_url entries : forall app n,
  for_each (register_path target_url) entries (app, n) =
  let '(before, refused) := registered_entries entries in
  let app' := extend_app app (flat_map (routes_of_path target_url) before) in
  match refused with
  | None => Ok (app', n + List.length (flat_map (routes_of_path target_url) before))
  | Some e => Raise (e, app')
  end.
Proof.
  induction entries as [|entry entries IH]; intros app n.
  - cbn. now rewrite extend_app_nil, Nat.add_0_r.
  - cbn [for_each registered_entries]. rewrite register_path_spec.
    destruct (entry_refused entry) as [e|].
    + cbn. now rewrite extend_app_nil.
    + rewrite IH. destruct (registered_entries entries) as [before refused].
      cbn [flat_map]. rewrite extend_app_app, length_app.
      destruct refused; [reflexivity|]. f_equal. f_equal. lia.
Qed.

Lemma create_proxy_routes_spec app S target_url :
  create_proxy_routes app S target_url =
  let '(before, refused) := registered_entries (paths S) in
  let app' := extend_app app (flat_map (routes_of_path target_url) before) in
  match refused with
  | None => Ok (app', List.length (flat_map (routes_of_path target_url) before))
  | Some e => Raise (e, app')
  end.
Proof. unfold create_proxy_routes. now rewrite register_paths_spec. Qed.

Lemma registered_entries_routable S :
  routable S = true <-> registered_entries (paths S) = (paths S, None).
Proof.
  unfold routable. induction (paths S) as [|entry entries IH];
    cbn [forallb registered_entries]; [tauto|].
  destruct (entry_refused entry).
  - split; discriminate.
  - cbn [andb]. rewrite IH. destruct (registered_entries entries) as [before refused].
    split; [now intros [= -> ->] | now intros [= -> ->]].
Qed.

(** What a build registers, whether it returns or raises. *)
Lemma build_registered target_url S :
  build target_url S =
  flat_map (routes_of_path target_url) (fst (registered_entries (paths S))).
Proof.
  unfold build. rewrite create_proxy_routes_spec.
  destruct (registered_entries (paths S)) as [before [e|]]; reflexivity.
Qed.

Lemma app_after_create app S target_url :
  app_after (create_proxy_routes app S target_url) =
  extend_app app (build target_url S).
Proof.
  rewrite build_registered, create_proxy_routes_spec.
  destruct (registered_entries (paths S)) as [before [e|]]; reflexivity.
Qed.

(** When no path is refused the build returns, with every route. *)
Lemma create_proxy_routes_routable app S target_url :
  routable S = true ->
  create_proxy_routes app S target_url =
  Ok (extend_app app (routes_of_schema target_url S),
      List.length (routes_of_schema target_url S)).
Proof.
  intros Hroutable. rewrite create_proxy_routes_spec.
  apply registered_entries_routable in Hroutable. now rewrite Hroutable.
Qed.

Lemma build_spec target_url S :
  routable S = true -> build target_url S = routes_of_schema target_url S.
Proof.
  intros Hroutable. rewrite build_registered.
  apply registered_entries_routable in Hroutable. now rewrite Hroutable.
Qed.

(** ** One route per recognised pair *)

Lemma METHODS_NoDup : NoDup METHODS.
Proof.
  unfold METHODS. repeat constructor; simpl; intuition discriminate.
Qed.

Lemma METHODS_lower_upper m : In m METHODS -> str_lower (str_upper m) = m.
Proof.
  unfold METHODS. simpl. intuition (subst; reflexivity).
Qed.

Lemma str_in_In s l : str_in s l = true <-> In s l.
Proof.
  unfold str_in. rewrite existsb_exists. split.
  - intros [x [HIn E]]. apply String.eqb_eq in E. now subst.
  - intros HIn. exists s. split; [exact HIn | apply String.eqb_refl].
Qed.

Lemma route_keys_of_methods target_url path item ms :
  (forall m, In m ms -> str_lower (str_upper m) = m) ->
  map route_key (flat_map (routes_of_method target_url path item) ms) =
  map (pair path) (filter (fun m => dict_mem m item) ms).
Proof.
  induction ms as [|m ms IH]; intros Hms; [reflexivity|].
  cbn [flat_map filter]. rewrite map_app, IH by (intros; apply Hms; now right).
  unfold routes_of_method, dict_mem.
  destruct (dict_get m item); cbn; [|reflexivity].
  unfold route_key. cbn. rewrite Hms by now left. reflexivity.
Qed.

Lemma route_keys_of_path target_url entry :
  map route_key (routes_of_path target_url entry) =
  map (pair (fst entry)) (filter (fun m => dict_mem m (snd entry)) METHODS).
Proof.
  apply route_keys_of_methods. apply METHODS_lower_upper.
Qed.

Lemma present_methods_perm (item : PathItem) :
  dict_wf item ->
  Permutation (filter (fun m => dict_mem m item) METHODS)
              (filter (fun m => str_in m METHODS) (dict_keys item)).
Proof.
  intros Hwf. apply NoDup_Permutation.
  - apply NoDup_filter, METHODS_NoDup.
  - apply NoDup_filter, Hwf.
  - intros m. rewrite !filter_In, dict_mem_In, str_in_In. tauto.
Qed.

Lemma recognised_pairs_unfold S :
  recognised_pairs S =
  flat_map (fun entry =>
              map (pair (fst entry))
                  (filter (fun m => str_in m METHODS) (dict_keys (snd entry))))
           (paths S).
Proof.
  unfold recognised_pairs, all_pairs.
  induction (paths S) as [|entry entries IH]; [reflexivity|].
  cbn [flat_map]. rewrite filter_app, IH. f_equal.
  unfold dict_keys. rewrite !filter_map_swap, map_map. reflexivity.
Qed.

Lemma route_keys_perm target_url S :
  Forall (fun entry => dict_wf (snd entry)) (paths S) ->
  Permutation (map route_key (routes_of_schema target_url S)) (recognised_pairs S).
Proof.
  rewrite recognised_pairs_unfold. unfold routes_of_schema.
  induction 1 as [|entry entries Hwf _ IH]; [constructor|].
  cbn [flat_map]. rewrite map_app. apply Permutation_app; [|exact IH].
  rewrite route_keys_of_path. apply Permutation_map.
  now apply present_methods_perm.
Qed.

Lemma recognised_pairs_path S path m :
  In (path, m) (recognised_pairs S) ->
  In path (dict_keys (paths S)) /\ In m METHODS.
Proof.
  rewrite recognised_pairs_unfold, in_flat_map.
  intros [entry [HIn Hpm]]. apply in_map_iff in Hpm as [m' [E Hm]].
  injection E as <- <-. apply filter_In in Hm as [_ Hm].
  split; [now apply in_map | now apply str_in_In].
Qed.

Lemma recognised_pairs_NoDup S : schema_wf S -> NoDup (recognised_pairs S).
Proof.
  intros [Hpaths Hitems]. rewrite recognised_pairs_unfold.
  unfold dict_wf, dict_keys in Hpaths. revert Hpaths.
  induction Hitems as [|entry entries Hwf _ IH]; intros Hpaths; [constructor|].
  cbn [flat_map map] in *. apply NoDup_cons_iff in Hpaths as [Hfresh Hpaths].
  apply NoDup_app.
  - apply NoDup_map_NoDup_ForallPairs; [intros x y _ _ [= E]; exact E|].
    apply NoDup_filter, Hwf.
  - now apply IH.
  - intros [p m] Hl Hr. apply in_map_iff in Hl as [m' [[= <- <-] _]].
    apply in_flat_map in Hr as [entry' [HIn Hpm]].
    apply in_map_iff in Hpm as [m'' [[= E _] _]].
    apply Hfresh. apply in_map_iff. exists entry'. split; [exact E | exact HIn].
Qed.

(** ** Operation identifiers of the table *)

Lemma derive_separates m m' path path' :
  In m METHODS -> In m' METHODS ->
  derive_operation_id m path = derive_operation_id m' path' ->
  m = m' /\ normalized_path path = normalized_path path'.
Proof.
  unfold derive_operation_id, METHODS.
  generalize (normalized_path path) (normalized_path path'). intros a b.
  simpl In. intros Hm Hm' H.
  repeat match goal with
         | H : _ \/ _ |- _ => destruct H
         | H : False |- _ => destruct H
         end; subst; cbn in H; try discriminate; split; congruence.
Qed.

Lemma NoDup_map_injective_on {A B} (g : A -> B) (l : list A) x y :
  NoDup (map g l) -> In x l -> In y l -> g x = g y -> x = y.
Proof.
  induction l as [|a l IH]; simpl; [tauto|].
  intros Hnd Hx Hy E. apply NoDup_cons_iff in Hnd as [Hfresh Hnd].
  destruct Hx as [->|Hx], Hy as [->|Hy]; try reflexivity.
  - exfalso. apply Hfresh. rewrite E. now apply in_map.
  - exfalso. apply Hfresh. rewrite <- E. now apply in_map.
  - now apply IH.
Qed.

Lemma operation_id_undeclared method path operation :
  match operationId operation with
  | Some declared => declared =? ""
  | None => true
  end = true ->
  operation_id_of method path operation = derive_operation_id method path.
Proof.
  unfold operation_id_of. destruct (operationId operation) as [declared|]; [|reflexivity].
  intros ->. reflexivity.
Qed.

Lemma operation_ids_of_methods target_url path (item : PathItem) ms :
  forallb (fun mo => match operationId (snd mo) with
                     | Some declared => declared =? ""
                     | None => true
                     end) item = true ->
  map route_operation_id (flat_map (routes_of_method target_url path item) ms) =
  map (fun m => derive_operation_id m path) (filter (fun m => dict_mem m item) ms).
Proof.
  intros Hitem. rewrite forallb_forall in Hitem.
  induction ms as [|m ms IH]; [reflexivity|].
  cbn [flat_map filter]. rewrite map_app, IH.
  unfold routes_of_method, dict_mem.
  destruct (dict_get m item) as [operation|] eqn:E; [|reflexivity].
  cbn. f_equal. apply operation_id_undeclared.
  apply (Hitem (m, operation)). now apply dict_get_In.
Qed.

Lemma operation_ids_derived target_url S :
  declares_no_identifier S = true ->
  operation_ids (routes_of_schema target_url S) =
  map (fun pm => derive_operation_id (snd pm) (fst pm))
      (map route_key (routes_of_schema target_url S)).
Proof.
  unfold declares_no_identifier, operation_ids, routes_of_schema.
  induction (paths S) as [|entry entries IH]; [reflexivity|].
  cbn [forallb flat_map]. intros [Hentry Hrest]%andb_prop.
  rewrite !map_app, IH by exact Hrest. f_equal.
  rewrite route_keys_of_path, map_map. cbn [fst snd].
  now apply operation_ids_of_methods.
Qed.

Lemma operation_ids_unique target_url S :
  schema_wf S ->
  declares_no_identifier S = true ->
  NoDup (map normalized_path (dict_keys (paths S))) ->
  NoDup (operation_ids (routes_of_schema target_url S)).
Proof.
  intros Hwf Hnone Hnorm. rewrite operation_ids_derived by exact Hnone.
  assert (Hperm := route_keys_perm target_url S (proj2 Hwf)).
  apply NoDup_map_NoDup_ForallPairs.
  - intros [p m] [p' m'] Hx Hy E. cbn [fst snd] in E.
    apply (Permutation_in _ Hperm), recognised_pairs_path in Hx.
    apply (Permutation_in _ Hperm), recognised_pairs_path in Hy.
    destruct Hx as [Hp Hm], Hy as [Hp' Hm'].
    destruct (derive_separates _ _ Hm Hm' E) as [-> En].
    f_equal. exact (NoDup_map_injective_on normalized_path _ p p' Hnorm Hp Hp' En).
  - apply (Permutation_NoDup (Permutation_sym Hperm)).
    now apply recognised_pairs_NoDup.
Qed.


(** C1, as stated, fails.  A well-formed document whose two operations
    receive the same generated identifier [get_a_b]: the builder registers
    both routes and neither fails nor disambiguates.  And a well-formed
    document whose second path names a parameter twice: the registration
    of that path raises, after one route of the three recognised pairs. *)
Lemma build_duplicate_operation_id :
  (schema_wf colliding_schema /\
   operation_ids (build "http://localhost:6673" colliding_schema)
     = ["get_a_b"; "get_a_b"] /\
   ~ NoDup (operation_ids (build "http://localhost:6673" colliding_schema))) /\
  (schema_wf refused_schema /\
   List.length (recognised_pairs refused_schema) = 3 /\
   create_proxy_routes empty_app refused_schema "http://localhost:6673" =
     Raise (DuplicatedParams ["a"],
            extend_app empty_app
              [route_for "http://localhost:6673" "/ok" "get" undeclared])).
Proof.
  split; [split; [|split]|split; [|split]].
  - split.
    + unfold dict_wf. cbn. repeat constructor; simpl; intuition discriminate.
    + repeat constructor; unfold dict_wf; cbn; repeat constructor; simpl; tauto.
  - vm_compute. reflexivity.
  - intros H. vm_compute in H. inversion H as [|x l Hx _]. apply Hx. now left.
  - split.
    + unfold dict_wf. cbn. repeat constructor; simpl; intuition discriminate.
    + repeat constructor; unfold dict_wf; cbn; repeat constructor; simpl; tauto.
  - reflexivity.
  - vm_compute. reflexivity.
Qed.

(** C1 (amended): for every well-formed interface description whose path
    templates the router accepts (every convertor known, no parameter name
    twice in a path), [build] returns and produces exactly one route per
    (path, method) pair whose method is one of get, post, put, delete,
    patch -- the keys of the table are a permutation of those pairs
    without repetition, other methods are ignored, and the returned route
    count is their number.  The operation identifiers of the table are
    pairwise distinct when no operation declares an identifier and no two
    paths normalise to the same text; the builder itself checks nothing. *)
Theorem build_one_route_per_recognised_pair target_url S :
  schema_wf S -> routable S = true ->
  create_proxy_routes empty_app S target_url =
    Ok (extend_app empty_app (build target_url S),
        List.length (recognised_pairs S)) /\
  Permutation (map route_key (build target_url S)) (recognised_pairs S) /\
  NoDup (map route_key (build target_url S)) /\
  (forall r, In r (build target_url S) -> In (str_lower (route_verb r)) METHODS) /\
  List.length (build target_url S) = List.length (recognised_pairs S) /\
  (declares_no_identifier S = true ->
   NoDup (map normalized_path (dict_keys (paths S))) ->
   NoDup (operation_ids (build target_url S))).
Proof.
  intros Hwf Hroutable.
  rewrite (create_proxy_routes_routable empty_app S target_url Hroutable).
  rewrite (build_spec target_url S Hroutable).
  assert (Hperm := route_keys_perm target_url S (proj2 Hwf)).
  assert (Hlen : List.length (routes_of_schema target_url S) =
                 List.length (recognised_pairs S)).
  { rewrite <- (Permutation_length Hperm). now rewrite length_map. }
  split; [now rewrite Hlen|]. repeat split.
  - exact Hperm.
  - apply (Permutation_NoDup (Permutation_sym Hperm)).
    now apply recognised_pairs_NoDup.
  - intros r Hr. apply (in_map route_key) in Hr.
    apply (Permutation_in _ Hperm) in Hr. unfold route_key in Hr.
    now apply recognised_pairs_path in Hr.
  - exact Hlen.
  - intros Hnone Hnorm. now apply operation_ids_unique.
Qed.

Lemma demo_schema_wf : schema_wf demo_schema.
Proof.
  split.
  - unfold dict_wf. cbn. repeat constructor; simpl; intuition discriminate.
  - repeat constructor; unfold dict_wf; cbn;
      repeat constructor; simpl; intuition discriminate.
Qed.

Lemma build_one_route_per_recognised_pair_witness :
  schema_wf demo_schema /\
  List.length (build "http://localhost:6673" demo_schema) = 3 /\
  NoDup (operation_ids (build "http://localhost:6673" demo_schema)).
Proof.
  destruct (build_one_route_per_recognised_pair "http://localhost:6673"
              demo_schema_wf eq_refl) as (_ & _ & _ & _ & Hlen & Hids).
  split; [exact demo_schema_wf|]. split; [exact Hlen|].
  apply Hids; [reflexivity|].
  cbn. repeat constructor; simpl; intuition discriminate.
Defined.

(** ** Strings *)

Lemma append_nil_r s : s ++ "" = s.
Proof. induction s as [|c s IH]; cbn; [reflexivity | now rewrite IH]. Qed.

Lemma append_assoc s1 s2 s3 : (s1 ++ s2) ++ s3 = s1 ++ (s2 ++ s3).
Proof. induction s1 as [|c s1 IH]; cbn; [reflexivity | now rewrite IH]. Qed.

Lemma length_append s1 s2 : length (s1 ++ s2) = length s1 + length s2.
Proof. induction s1 as [|c s1 IH]; cbn; [reflexivity | now rewrite IH]. Qed.

Lemma join_all_app l1 l2 : join_all (l1 ++ l2) = join_all l1 ++ join_all l2.
Proof.
  induction l1 as [|s l1 IH]; cbn; [reflexivity|].
  now rewrite IH, append_assoc.
Qed.

(** A one-character pattern is replaced character by character. *)
Lemma replace_from_char c new s :
  replace_from (String c "") new 0 s = subst_char c new s.
Proof.
  induction s as [|c' s IH]; [reflexivity|].
  cbn [replace_from subst_char str_startswith length Nat.sub].
  rewrite IH. destruct (Ascii.eqb c' c); cbn; [|reflexivity].
  now destruct s.
Qed.

Lemma str_replace_char s c new : str_replace s (String c "") new = subst_char c new s.
Proof. apply replace_from_char. Qed.

Lemma subst_char_append c new s1 s2 :
  subst_char c new (s1 ++ s2) = subst_char c new s1 ++ subst_char c new s2.
Proof.
  induction s1 as [|c' s1 IH]; [reflexivity|].
  cbn. rewrite IH. destruct (Ascii.eqb c' c); [|reflexivity].
  now rewrite append_assoc.
Qed.

(** The three replacements of the builder, read character by character. *)
Lemma replacements_flatten path :
  str_replace (str_replace (str_replace path "/" "_") "{" "") "}" "" = flatten_path path.
Proof.
  rewrite !str_replace_char.
  induction path as [|c path IH]; [reflexivity|].
  cbn [subst_char flatten_path]. unfold is_brace.
  destruct (Ascii.eqb_spec c "/") as [->|Hslash].
  - cbn. now rewrite IH.
  - cbn [subst_char]. destruct (Ascii.eqb_spec c "{") as [->|Hopen].
    + cbn. exact IH.
    + cbn [subst_char orb]. destruct (Ascii.eqb_spec c "}") as [->|Hclose].
      * cbn. exact IH.
      * now rewrite IH.
Qed.

Lemma normalized_path_flatten path :
  normalized_path path = str_strip (flatten_path path) "_".
Proof. unfold normalized_path. now rewrite replacements_flatten. Qed.

Lemma flatten_path_append s1 s2 :
  flatten_path (s1 ++ s2) = flatten_path s1 ++ flatten_path s2.
Proof.
  induction s1 as [|c s1 IH]; [reflexivity|].
  cbn. rewrite IH. now destruct (Ascii.eqb c "/"), (is_brace c).
Qed.

Lemma flatten_path_slash_free s : slash_free s = true -> flatten_path s = drop_braces s.
Proof.
  induction s as [|c s IH]; [reflexivity|].
  cbn. destruct (Ascii.eqb c "/"); [discriminate|].
  cbn. intros H. rewrite IH by exact H. reflexivity.
Qed.

(** ** The builder's normalisation and the specification's *)

Lemma split_on_nonempty sep s : split_on sep s <> [].
Proof.
  destruct s as [|c s]; cbn; [discriminate|].
  destruct (Ascii.eqb c sep); [discriminate|].
  destruct (split_on sep s); discriminate.
Qed.

Lemma split_on_slash_free s rest :
  slash_free s = true ->
  split_on "/" (s ++ rest) =
  match split_on "/" rest with
  | h :: t => (s ++ h) :: t
  | [] => [s]
  end.
Proof.
  induction s as [|c s IH]; cbn [append slash_free split_on].
  - intros _. destruct (split_on "/" rest) eqn:E; [|reflexivity].
    now apply split_on_nonempty in E.
  - destruct (Ascii.eqb c "/"); [discriminate|]. cbn [negb andb].
    intros H. rewrite IH by exact H.
    destruct (split_on "/" rest) eqn:E; [|reflexivity].
    now apply split_on_nonempty in E.
Qed.

Lemma split_path_of_segments segs :
  forallb segment_regular segs = true ->
  split_on "/" (path_of_segments segs) = "" :: segs.
Proof.
  unfold path_of_segments.
  induction segs as [|s segs IH]; [reflexivity|].
  cbn [forallb map join_all]. unfold segment_regular at 1.
  intros [[_ Hfree]%andb_prop Hrest]%andb_prop.
  specialize (IH Hrest).
  change (split_on "/" (("/" ++ s) ++ join_all (map (fun s0 => "/" ++ s0) segs)))
    with ("" :: split_on "/" (s ++ join_all (map (fun s0 => "/" ++ s0) segs))).
  rewrite split_on_slash_free, IH by assumption.
  now rewrite append_nil_r.
Qed.

Lemma filter_nonempty_segments segs :
  forallb segment_regular segs = true ->
  filter (fun piece => negb (piece =? "")) segs = segs.
Proof.
  induction segs as [|s segs IH]; [reflexivity|].
  cbn [forallb filter]. unfold segment_regular at 1.
  intros [[-> _]%andb_prop Hrest]%andb_prop. now rewrite IH.
Qed.

Lemma flatten_path_of_segments segs :
  forallb segment_regular segs = true ->
  flatten_path (path_of_segments segs) =
  join_all (map (fun s => "_" ++ drop_braces s) segs).
Proof.
  unfold path_of_segments.
  induction segs as [|s segs IH]; [reflexivity|].
  cbn [forallb map join_all]. unfold segment_regular at 1.
  intros [[_ Hfree]%andb_prop Hrest]%andb_prop.
  rewrite flatten_path_append, IH by exact Hrest.
  change (flatten_path ("/" ++ s)) with ("_" ++ flatten_path s).
  now rewrite flatten_path_slash_free by exact Hfree.
Qed.

Lemma join_underscored pieces :
  pieces <> [] ->
  join_all (map (fun u => "_" ++ u) pieces) = "_" ++ String.concat "_" pieces.
Proof.
  induction pieces as [|u pieces IH]; [congruence|]. intros _.
  destruct pieces as [|u' pieces].
  - cbn. now rewrite append_nil_r.
  - cbn [map join_all String.concat] in *. rewrite IH by discriminate.
    cbn. reflexivity.
Qed.

Lemma normalized_path_of_segments segs :
  forallb segment_regular segs = true ->
  normalized_path (path_of_segments segs) =
  str_strip (spec_normalized_path (path_of_segments segs)) "_".
Proof.
  intros Hsegs. rewrite normalized_path_flatten. unfold spec_normalized_path.
  rewrite split_path_of_segments, flatten_path_of_segments by exact Hsegs.
  cbn [filter String.eqb negb]. rewrite filter_nonempty_segments by exact Hsegs.
  destruct segs as [|s segs]; [reflexivity|].
  rewrite <- (map_map drop_braces (fun u => "_" ++ u)).
  rewrite join_underscored by discriminate.
  reflexivity.
Qed.

(** C2, as stated, fails: on a path with a repeated separator the builder
    keeps one underscore per separator ([get_a__b]) where the
    specification's normalisation collapses them ([get_a_b]); and a
    declared identifier that is the empty string is not used. *)
Lemma derive_keeps_repeated_separators :
  operation_id_of "get" "/a//b" undeclared = "get_a__b" /\
  spec_derive "get" "/a//b" = "get_a_b" /\
  operation_id_of "get" "/a//b" undeclared <> spec_derive "get" "/a//b" /\
  operation_id_of "get" "/ping" (declared_as "") = "get_ping".
Proof.
  repeat split; try (vm_compute; reflexivity).
  vm_compute. discriminate.
Qed.

(** C2 (amended): a declared, non-empty identifier is used verbatim.
    Otherwise the identifier is [{method}_{normalized_path}], where the
    normalisation turns every path separator into one underscore, deletes
    the placeholder braces and strips leading and trailing underscores;
    repeated separators are not collapsed.  On a path [/s1/.../sn] without
    empty segment this is the specification's normalisation with its
    leading and trailing underscores stripped; in particular
    derive(get, /users/{user_id}) = get_users_user_id. *)
Theorem operation_id_derivation method path operation :
  (forall declared,
      operationId operation = Some declared -> declared <> "" ->
      operation_id_of method path operation = declared) /\
  (operationId operation = None \/ operationId operation = Some "" ->
   operation_id_of method path operation =
   method ++ "_" ++ str_strip (flatten_path path) "_") /\
  (forall segs,
      forallb segment_regular segs = true -> path = path_of_segments segs ->
      derive_operation_id method path =
      method ++ "_" ++ str_strip (spec_normalized_path path) "_") /\
  derive_operation_id "get" "/users/{user_id}" = "get_users_user_id".
Proof.
  repeat split.
  - intros declared E Hne. unfold operation_id_of. rewrite E.
    apply String.eqb_neq in Hne. now rewrite Hne.
  - intros [E|E]; unfold operation_id_of; rewrite E;
      cbn [String.eqb negb]; unfold derive_operation_id;
      now rewrite normalized_path_flatten.
  - intros segs Hsegs ->. unfold derive_operation_id.
    now rewrite normalized_path_of_segments.
Qed.

Lemma operation_id_derivation_witness :
  operation_id_of "get" "/users/{user_id}" (declared_as "get_user") = "get_user" /\
  operation_id_of "get" "/users/{user_id}" undeclared = "get_users_user_id" /\
  derive_operation_id "get" "/users/{user_id}" = spec_derive "get" "/users/{user_id}".
Proof.
  split; [|split].
  - apply (proj1 (operation_id_derivation "get" "/users/{user_id}"
                    (declared_as "get_user")) "get_user");
      [reflexivity | discriminate].
  - rewrite (proj1 (proj2 (operation_id_derivation "get" "/users/{user_id}"
                             undeclared))); [reflexivity | now left].
  - rewrite (proj1 (proj2 (proj2 (operation_id_derivation "get" "/users/{user_id}"
                                    undeclared))) ["users"; "{user_id}"]);
      reflexivity.
Defined.

(** ** Path substitution *)

Lemma str_startswith_append p rest : str_startswith (p ++ rest) p = true.
Proof.
  induction p as [|c p IH]; [reflexivity|].
  cbn. now rewrite Ascii.eqb_refl, IH.
Qed.

Lemma replace_from_skip old new p rest :
  replace_from old new (length p) (p ++ rest) = replace_from old new 0 rest.
Proof.
  induction p as [|c p IH]; [reflexivity|]. cbn. exact IH.
Qed.

Lemma brace_free_cons c s :
  brace_free (String c s) = true ->
  Ascii.eqb c "{" = false /\ Ascii.eqb c "}" = false /\ brace_free s = true.
Proof.
  cbn. unfold is_brace.
  destruct (Ascii.eqb c "{"), (Ascii.eqb c "}"); cbn; intros H;
    try discriminate; auto.
Qed.

Lemma brace_free_append s1 s2 :
  brace_free s1 = true -> brace_free s2 = true -> brace_free (s1 ++ s2) = true.
Proof.
  induction s1 as [|c s1 IH]; cbn; [auto|].
  intros [-> H]%andb_prop E. cbn. now apply IH.
Qed.

(** A text without brace is copied: no match starts inside it. *)
Lemma replace_from_literal name new text rest :
  brace_free text = true ->
  replace_from (placeholder name) new 0 (text ++ rest) =
  text ++ replace_from (placeholder name) new 0 rest.
Proof.
  unfold placeholder. cbn [append].
  induction text as [|c text IH]; [reflexivity|].
  intros (Hopen & _ & Hfree)%brace_free_cons.
  cbn [append replace_from str_startswith].
  rewrite Hopen. cbn [andb]. now rewrite <- IH.
Qed.

(** A placeholder of the replaced name is consumed whole. *)
Lemma replace_from_same_hole name new rest :
  replace_from (placeholder name) new 0 (placeholder name ++ rest) =
  new ++ replace_from (placeholder name) new 0 rest.
Proof.
  assert (Hstart := str_startswith_append (placeholder name) rest).
  unfold placeholder in *. cbn [append] in *.
  cbn [replace_from length Nat.sub]. rewrite Hstart.
  now rewrite Nat.sub_0_r, replace_from_skip.
Qed.

Lemma str_startswith_other_name n name rest :
  brace_free n = true -> brace_free name = true -> n <> name ->
  str_startswith ((n ++ "}") ++ rest) (name ++ "}") = false.
Proof.
  revert name. induction n as [|c n IH]; intros [|c' name] Hn Hname Hne.
  - congruence.
  - apply brace_free_cons in Hname as (_ & Hclose & _).
    cbn [append str_startswith].
    rewrite Ascii.eqb_sym, Hclose. reflexivity.
  - apply brace_free_cons in Hn as (_ & Hclose & _).
    cbn [append str_startswith].
    rewrite Hclose. reflexivity.
  - apply brace_free_cons in Hn as (_ & _ & Hn).
    apply brace_free_cons in Hname as (_ & _ & Hname).
    cbn [append str_startswith].
    destruct (Ascii.eqb_spec c c') as [->|Hc]; [|reflexivity].
    cbn [andb]. apply IH; [assumption..|]. congruence.
Qed.

(** A placeholder of another name is copied. *)
Lemma replace_from_other_hole n name new rest :
  brace_free n = true -> brace_free name = true -> n <> name ->
  replace_from (placeholder name) new 0 (placeholder n ++ rest) =
  placeholder n ++ replace_from (placeholder name) new 0 rest.
Proof.
  intros Hn Hname Hne.
  assert (Hstart := @str_startswith_other_name n name rest Hn Hname Hne).
  assert (Hlit := @replace_from_literal name new n ("}" ++ rest) Hn).
  unfold placeholder in *. cbn [append] in *.
  cbn [replace_from str_startswith]. rewrite Hstart. cbn [andb].
  rewrite andb_false_r, !append_assoc. cbn [append]. rewrite Hlit.
  cbn [replace_from str_startswith]. reflexivity.
Qed.

Lemma render_template_cons seg segs :
  render_template (seg :: segs) = render_segment seg ++ render_template segs.
Proof. reflexivity. Qed.

Lemma str_replace_placeholder s name new :
  str_replace s (placeholder name) new = replace_from (placeholder name) new 0 s.
Proof. reflexivity. Qed.

(** One replacement fills the placeholders of its name and nothing else. *)
Lemma substitute_one segs name value :
  forallb segment_ok segs = true -> brace_free name = true ->
  str_replace (render_template segs) (placeholder name) value =
  render_template (map (fill_one name value) segs).
Proof.
  intros Hsegs Hname. rewrite str_replace_placeholder.
  induction segs as [|seg segs IH]; [reflexivity|].
  cbn [forallb] in Hsegs. apply andb_prop in Hsegs as [Hseg Hsegs].
  cbn [map]. rewrite !render_template_cons. specialize (IH Hsegs).
  destruct seg as [text|n]; cbn [fill_one render_segment segment_ok] in *.
  - now rewrite replace_from_literal, IH.
  - destruct (String.eqb_spec name n) as [<-|Hne].
    + now rewrite replace_from_same_hole, IH.
    + rewrite replace_from_other_hole, IH by (auto; congruence). reflexivity.
Qed.

Lemma fill_one_ok name value segs :
  brace_free value = true ->
  forallb segment_ok segs = true ->
  forallb segment_ok (map (fill_one name value) segs) = true.
Proof.
  intros Hvalue. induction segs as [|seg segs IH]; [reflexivity|].
  cbn [forallb map]. intros [Hseg Hsegs]%andb_prop.
  rewrite IH by exact Hsegs. rewrite andb_true_r.
  destruct seg as [text|n]; cbn in *; [exact Hseg|].
  now destruct (name =? n).
Qed.

Lemma spec_substitute_nil segs : spec_substitute segs [] = render_template segs.
Proof.
  reflexivity.
Qed.

Lemma spec_substitute_cons segs name value params :
  spec_substitute segs ((name, value) :: params) =
  spec_substitute (map (fill_one name value) segs) params.
Proof.
  unfold spec_substitute. rewrite map_map. f_equal.
  apply map_ext. intros [text|n]; cbn; [reflexivity|].
  now destruct (name =? n).
Qed.

Lemma substitute_path_segments params : forall segs,
  forallb segment_ok segs = true -> params_ok params = true ->
  substitute_path (render_template segs) params = spec_substitute segs params.
Proof.
  induction params as [|[name value] params IH]; intros segs Hsegs Hparams.
  - now rewrite spec_substitute_nil.
  - cbn [params_ok forallb fst snd] in Hparams.
    apply andb_prop in Hparams as [[Hname Hvalue]%andb_prop Hparams].
    unfold substitute_path. cbn [fold_left]. unfold substitute_param at 2.
    cbn [fst snd]. fold (placeholder name).
    rewrite substitute_one by assumption.
    rewrite spec_substitute_cons. apply IH; [|exact Hparams].
    now apply fill_one_ok.
Qed.

(** C5, as stated, fails: the parameters are substituted one after the
    other, so a value that spells a later parameter's placeholder is
    substituted again.  With the template [/{a}/{b}] and the inbound values
    a = "{b}", b = "x" the handler resolves [/x/x], where replacing each
    placeholder by its value gives [/{b}/x]. *)
Lemma substitution_is_sequential :
  render_template two_holes = "/{a}/{b}" /\
  substitute_path "/{a}/{b}" [("a", "{b}"); ("b", "x")] = "/x/x" /\
  spec_substitute two_holes [("a", "{b}"); ("b", "x")] = "/{b}/x" /\
  substitute_path (render_template two_holes) [("a", "{b}"); ("b", "x")] <>
  spec_substitute two_holes [("a", "{b}"); ("b", "x")].
Proof.
  repeat split; try (vm_compute; reflexivity).
  vm_compute. discriminate.
Qed.

(** C5 (amended): path substitution is total and best-effort.  The inbound
    parameters are substituted one after the other, in the order of the
    mapping; when no parameter name or value contains a brace, every
    placeholder [{name}] with a matching inbound value is replaced by that
    value and every placeholder without one is left as literal text, and
    no error is raised.  [/items/{id}/sub/{sub_id}] with id = 7, sub_id = 3
    resolves to [/items/7/sub/3], and with id = 7 only to
    [/items/7/sub/{sub_id}]. *)
Theorem substitute_path_best_effort :
  (forall segs params,
      forallb segment_ok segs = true -> params_ok params = true ->
      substitute_path (render_template segs) params = spec_substitute segs params) /\
  (forall path_template, substitute_path path_template [] = path_template) /\
  substitute_path "/items/{id}/sub/{sub_id}" [("id", "7"); ("sub_id", "3")]
    = "/items/7/sub/3" /\
  substitute_path "/items/{id}/sub/{sub_id}" [("id", "7")]
    = "/items/7/sub/{sub_id}".
Proof.
  split; [|repeat split].
  intros segs params Hsegs Hparams. now apply substitute_path_segments.
Qed.

Lemma substitute_path_best_effort_witness :
  substitute_path (render_template items_template) [("id", "7")] =
  "/items/7/sub/{sub_id}".
Proof.
  rewrite (proj1 substitute_path_best_effort items_template [("id", "7")]);
    reflexivity.
Defined.

(** ** Body relaying *)

Lemma json_content_exclusive body :
  json_argument body = PyNone \/ content_argument body = PyNone.
Proof.
  unfold json_argument, content_argument.
  destruct (truthy body), (is_dict body); cbn; auto.
Qed.

Lemma read_body_other_method request :
  str_in (req_method request) BODY_METHODS = false -> read_body request = PyNone.
Proof. unfold read_body, BODY_METHODS. now intros ->. Qed.

Lemma read_body_json request v :
  str_in (req_method request) BODY_METHODS = true ->
  req_json request = Some v -> read_body request = v.
Proof. unfold read_body, BODY_METHODS. now intros -> ->. Qed.

Lemma read_body_raw request b :
  str_in (req_method request) BODY_METHODS = true ->
  req_json request = None -> req_body request = Some b ->
  read_body request = PyBytes b.
Proof. unfold read_body, BODY_METHODS. now intros -> -> ->. Qed.

(** C3, as stated, fails: the POST body [[1]] decodes as JSON, yet the
    handler passes nothing as JSON body and sets the raw-content argument;
    the POST body [{}] decodes as JSON and nothing at all is sent.  Neither
    call relays its body as the specification words it. *)
Lemma decoded_body_not_sent_as_json :
  (req_json array_request = Some (PyList [PyInt 1]) /\
   out_json (outbound RELAYED_HEADERS ping_handler array_request) = PyNone /\
   out_content (outbound RELAYED_HEADERS ping_handler array_request)
     = PyList [PyInt 1] /\
   ~ spec_body_relay array_request
       (outbound RELAYED_HEADERS ping_handler array_request)) /\
  (req_json empty_object_request = Some (PyDict []) /\
   out_json (outbound RELAYED_HEADERS ping_handler empty_object_request) = PyNone /\
   out_content (outbound RELAYED_HEADERS ping_handler empty_object_request) = PyNone).
Proof.
  repeat split; try reflexivity.
  intros [H _]. cbn in H. discriminate.
Qed.

(** C3 (amended): for every forwarded call with method POST, PUT or PATCH
    the handler attempts to decode the inbound body as JSON; a decoded
    non-empty object is sent as the JSON body, and when decoding fails and
    the raw payload is not empty the original bytes are sent as raw
    content -- raw bytes are sent only when decoding failed.  For every
    call with any other method no body is sent, and on every call at most
    one of JSON body and raw content is set, never both. *)
Theorem relayed_body_rules allowed h request :
  let o := outbound allowed h request in
  (str_in (req_method request) BODY_METHODS = true ->
   forall d, req_json request = Some (PyDict d) -> d <> [] ->
   out_json o = PyDict d /\ out_content o = PyNone) /\
  (str_in (req_method request) BODY_METHODS = true ->
   forall b, req_json request = None -> req_body request = Some b -> b <> [] ->
   out_json o = PyNone /\ out_content o = PyBytes b) /\
  (forall b, out_content o = PyBytes b ->
   (forall v, req_json request = Some v -> is_bytes v = false) ->
   req_json request = None /\ req_body request = Some b) /\
  (str_in (req_method request) BODY_METHODS = false ->
   out_json o = PyNone /\ out_content o = PyNone) /\
  ~ (is_set (out_json o) = true /\ is_set (out_content o) = true).
Proof.
  cbn zeta. cbn [outbound out_json out_content].
  split; [|split; [|split; [|split]]].
  - intros Hmethod d Hjson Hd.
    rewrite (read_body_json request Hmethod Hjson). now destruct d.
  - intros Hmethod b Hjson Hbody Hb.
    rewrite (read_body_raw request Hmethod Hjson Hbody). now destruct b.
  - intros b Hcontent Hdecoded. revert Hcontent.
    unfold content_argument, read_body.
    destruct (str_in (req_method request) _); [|discriminate].
    destruct (req_json request) as [v|].
    + specialize (Hdecoded v eq_refl).
      destruct (truthy v && negb (is_dict v)); [|discriminate].
      intros ->. discriminate.
    + destruct (req_body request) as [b'|]; [|discriminate].
      destruct (truthy (PyBytes b') && negb (is_dict (PyBytes b'))); [|discriminate].
      now intros [= ->].
  - intros Hmethod. now rewrite read_body_other_method.
  - intros [Hj Hc].
    destruct (json_content_exclusive (read_body request)) as [E|E];
      rewrite E in *; discriminate.
Qed.

Lemma relayed_body_rules_witness :
  out_json (outbound RELAYED_HEADERS ping_handler object_request)
    = PyDict [("a", PyInt 1)] /\
  out_content (outbound RELAYED_HEADERS ping_handler text_request)
    = PyBytes (list_byte_of_string "hello") /\
  req_json text_request = None.
Proof.
  split; [|split].
  - apply (proj1 (relayed_body_rules RELAYED_HEADERS ping_handler object_request));
      [reflexivity | reflexivity | discriminate].
  - apply (proj1 (proj2 (relayed_body_rules RELAYED_HEADERS ping_handler text_request)));
      [reflexivity | reflexivity | reflexivity | discriminate].
  - apply (proj1 (proj2 (proj2 (relayed_body_rules RELAYED_HEADERS ping_handler text_request)))
             (list_byte_of_string "hello")); [reflexivity|].
    intros v E. discriminate E.
Defined.

(** C10, at the POST body [[1]]: the decoded array is truthy and not an
    object, so the handler passes it as the [content] argument and passes
    no [json] argument; the client refuses a list as content before
    anything is sent, and its exception, which is not a [RequestError],
    leaves the handler.  The array is not forwarded as raw content. *)
Theorem non_object_body_not_forwarded remote :
  req_json array_request = Some (PyList [PyInt 1]) /\
  out_json (outbound RELAYED_HEADERS ping_handler array_request) = PyNone /\
  out_content (outbound RELAYED_HEADERS ping_handler array_request)
    = PyList [PyInt 1] /\
  client_request (outbound RELAYED_HEADERS ping_handler array_request) remote
    = Raise RuntimeError /\
  handler RELAYED_HEADERS ping_handler array_request remote = Uncaught RuntimeError.
Proof. repeat split. Qed.

(** ** Header relaying *)

Lemma headers_contains_getitem name hs :
  headers_contains name hs =
  match headers_getitem name hs with Some _ => true | None => false end.
Proof.
  unfold headers_contains, headers_getitem.
  induction hs as [|[k v] hs IH]; [reflexivity|].
  cbn. now destruct (k =? str_lower name).
Qed.

(** One iteration, in terms of the value the request gives the name. *)
Lemma relay_header_getitem request headers header_name :
  relay_header request headers header_name =
  match headers_getitem header_name (req_headers request) with
  | Some v => dict_set header_name v headers
  | None => headers
  end.
Proof.
  unfold relay_header. rewrite headers_contains_getitem.
  now destruct (headers_getitem header_name (req_headers request)).
Qed.

Lemma In_dict_set {V} k (v : V) k' v' d :
  In (k', v') (dict_set k v d) -> (k' = k /\ v' = v) \/ In (k', v') d.
Proof.
  induction d as [|[k0 v0] d IH]; cbn.
  - intros [[= <- <-]|[]]. now left.
  - destruct (String.eqb_spec k0 k) as [->|Hne]; cbn.
    + intros [[= <- <-]|HIn]; [now left | right; now right].
    + intros [E|HIn]; [right; now left|].
      destruct (IH HIn) as [H|H]; [now left | right; now right].
Qed.

(** Only allow-listed names are relayed, each with the request's value. *)
Lemma relay_headers_only request allowed : forall headers name value,
  In (name, value) (fold_left (relay_header request) allowed headers) ->
  In (name, value) headers \/
  (In name allowed /\ headers_getitem name (req_headers request) = Some value).
Proof.
  induction allowed as [|a allowed IH]; intros headers name value; cbn [fold_left].
  - now left.
  - intros HIn. apply IH in HIn as [HIn|[Hname Hget]].
    + rewrite relay_header_getitem in HIn.
      destruct (headers_getitem a (req_headers request)) as [v|] eqn:E;
        [|now left].
      apply In_dict_set in HIn as [[-> ->]|HIn]; [|now left].
      right. split; [now left | exact E].
    + right. split; [now right | exact Hget].
Qed.

(** Every allow-listed name the request carries is relayed with its value. *)
Lemma relay_headers_all request name value allowed : forall headers,
  headers_getitem name (req_headers request) = Some value ->
  In name allowed \/ dict_get name headers = Some value ->
  dict_get name (fold_left (relay_header request) allowed headers) = Some value.
Proof.
  induction allowed as [|a allowed IH]; intros headers Hget Hcase; cbn [fold_left].
  - destruct Hcase as [[]|H]. exact H.
  - apply IH; [exact Hget|]. rewrite relay_header_getitem.
    destruct (String.eqb_spec a name) as [->|Hne].
    + right. rewrite Hget, dict_get_set. now rewrite String.eqb_refl.
    + destruct Hcase as [[E|HIn]|Hheaders]; [congruence | now left | right].
      destruct (headers_getitem a (req_headers request)); [|exact Hheaders].
      rewrite dict_get_set. apply String.eqb_neq in Hne. now rewrite Hne.
Qed.

(** The relayed headers depend on the allow-listed names only. *)
Lemma relay_headers_agree allowed request hs' :
  agree_on allowed (req_headers request) hs' ->
  relay_headers allowed (with_headers request hs') = relay_headers allowed request.
Proof.
  unfold relay_headers, agree_on. generalize (@nil (string * string)).
  induction allowed as [|a allowed IH]; intros headers Hagree; [reflexivity|].
  cbn [fold_left]. rewrite !relay_header_getitem. cbn [with_headers req_headers].
  rewrite Hagree by now left.
  apply IH. intros name Hname. apply Hagree. now right.
Qed.

Lemma outbound_agree allowed h request hs' :
  agree_on allowed (req_headers request) hs' ->
  outbound allowed h (with_headers request hs') = outbound allowed h request.
Proof.
  intros Hagree. unfold outbound. rewrite relay_headers_agree by exact Hagree.
  reflexivity.
Qed.

(** C4: the outbound headers are drawn from the allow-list
    {authorization, content-type} only; every allow-listed header the
    inbound call carries is forwarded with its inbound value; and the
    outbound call, hence the handler's result, is the same under any change
    of the other inbound headers. *)
Theorem header_isolation h request :
  let o := outbound RELAYED_HEADERS h request in
  (forall name value,
      In (name, value) (out_headers o) ->
      In name RELAYED_HEADERS /\
      headers_getitem name (req_headers request) = Some value) /\
  (forall name value,
      In name RELAYED_HEADERS ->
      headers_getitem name (req_headers request) = Some value ->
      dict_get name (out_headers o) = Some value) /\
  (forall hs',
      agree_on RELAYED_HEADERS (req_headers request) hs' ->
      outbound RELAYED_HEADERS h (with_headers request hs') = o /\
      forall remote,
        handler RELAYED_HEADERS h (with_headers request hs') remote =
        handler RELAYED_HEADERS h request remote).
Proof.
  cbn zeta. split; [|split].
  - intros name value H. cbn [outbound out_headers] in H. unfold relay_headers in H.
    apply relay_headers_only in H as [[]|H]. exact H.
  - intros name value Hname Hget. cbn [outbound out_headers]. unfold relay_headers.
    apply relay_headers_all; [exact Hget | now left].
  - intros hs' Hagree. split.
    + now apply outbound_agree.
    + intros remote. unfold handler. now rewrite outbound_agree.
Qed.

Lemma header_isolation_witness :
  out_headers (outbound RELAYED_HEADERS ping_handler (get_request inbound_headers))
    = [("authorization", "Bearer x")] /\
  outbound RELAYED_HEADERS ping_handler (get_request varied_headers) =
  outbound RELAYED_HEADERS ping_handler (get_request inbound_headers).
Proof.
  split; [reflexivity|].
  apply (proj2 (proj2 (header_isolation ping_handler (get_request inbound_headers)))
           varied_headers).
  intros name [<-|[<-|[]]]; reflexivity.
Defined.

(** ** Mappings built from a list of pairs *)

Lemma first_occurrences_In k names : forall seen,
  In k (first_occurrences seen names) <-> In k names /\ ~ In k seen.
Proof.
  induction names as [|k0 names IH]; intros seen; cbn [first_occurrences].
  - cbn. tauto.
  - destruct (str_in k0 seen) eqn:E.
    + apply str_in_In in E. rewrite IH. cbn. split; [tauto|].
      intros [[<-|H] Hseen]; [contradiction | tauto].
    + assert (Hk0 : ~ In k0 seen).
      { intros H. apply str_in_In in H. congruence. }
      cbn [In]. rewrite IH, in_app_iff. cbn.
      destruct (String.eqb_spec k0 k) as [->|Hne]; [tauto|].
      intuition congruence.
Qed.

Lemma first_occurrences_NoDup names : forall seen,
  NoDup (first_occurrences seen names).
Proof.
  induction names as [|k0 names IH]; intros seen; cbn [first_occurrences].
  - constructor.
  - destruct (str_in k0 seen); [apply IH|].
    constructor; [|apply IH].
    rewrite first_occurrences_In, in_app_iff. cbn. tauto.
Qed.

Lemma first_occurrences_id names : forall seen,
  NoDup names -> (forall k, In k names -> ~ In k seen) ->
  first_occurrences seen names = names.
Proof.
  induction names as [|k0 names IH]; intros seen Hnd Hseen; [reflexivity|].
  cbn [first_occurrences]. apply NoDup_cons_iff in Hnd as [Hfresh Hnd].
  destruct (str_in k0 seen) eqn:E.
  - apply str_in_In in E. exfalso. apply (Hseen k0); [now left | exact E].
  - f_equal. apply IH; [exact Hnd|].
    intros k Hk. rewrite in_app_iff. cbn. intros [H|[<-|[]]].
    + apply (Hseen k); [now right | exact H].
    + contradiction.
Qed.

Lemma str_in_dict_keys {V} k (d : dict V) : str_in k (dict_keys d) = dict_mem k d.
Proof.
  destruct (dict_mem k d) eqn:E.
  - apply str_in_In. now apply dict_mem_In.
  - destruct (str_in k (dict_keys d)) eqn:E'; [|reflexivity].
    apply str_in_In, dict_mem_In in E'. congruence.
Qed.

Lemma dict_get_app {V} k (d1 d2 : dict V) :
  dict_get k (d1 ++ d2)%list =
  match dict_get k d1 with Some v => Some v | None => dict_get k d2 end.
Proof.
  induction d1 as [|[k' v'] d1 IH]; cbn; [reflexivity|].
  now destruct (k' =? k).
Qed.

Section FoldSet.
Context {V : Type}.
Implicit Types (items acc : dict V).

Lemma fold_set_keys items : forall acc,
  dict_keys (fold_left set_item items acc) =
  (dict_keys acc ++ first_occurrences (dict_keys acc) (map fst items))%list.
Proof.
  induction items as [|[k v] items IH]; intros acc; cbn [fold_left map first_occurrences fst].
  - now rewrite app_nil_r.
  - rewrite IH. change (set_item acc (k, v)) with (dict_set k v acc).
    rewrite dict_keys_set, str_in_dict_keys.
    destruct (dict_mem k acc); [reflexivity|].
    now rewrite <- app_assoc.
Qed.

Lemma fold_set_get k items : forall acc,
  dict_get k (fold_left set_item items acc) =
  match dict_get k (rev items) with
  | Some v => Some v
  | None => dict_get k acc
  end.
Proof.
  induction items as [|[k0 v0] items IH]; intros acc; cbn [fold_left rev].
  - reflexivity.
  - rewrite IH, dict_get_app.
    change (set_item acc (k0, v0)) with (dict_set k0 v0 acc).
    cbn [dict_get]. rewrite dict_get_set.
    destruct (dict_get k (rev items)); [reflexivity|].
    now destruct (k0 =? k).
Qed.

Lemma fold_set_wf items : forall acc,
  dict_wf acc -> dict_wf (fold_left set_item items acc).
Proof.
  induction items as [|[k v] items IH]; intros acc Hwf; [exact Hwf|].
  cbn [fold_left]. apply IH. now apply (dict_set_wf k v).
Qed.

Lemma fold_set_fresh items : forall acc,
  NoDup (dict_keys acc ++ map fst items) ->
  fold_left set_item items acc = (acc ++ items)%list.
Proof.
  induction items as [|[k v] items IH]; intros acc Hnd; cbn [fold_left].
  - now rewrite app_nil_r.
  - cbn [map fst] in Hnd.
    change (set_item acc (k, v)) with (dict_set k v acc).
    rewrite dict_set_fresh.
    + rewrite IH; [now rewrite <- app_assoc|].
      unfold dict_keys. rewrite map_app, <- app_assoc. exact Hnd.
    + destruct (dict_mem k acc) eqn:E; [|reflexivity].
      apply dict_mem_In in E. apply NoDup_remove_2 in Hnd.
      exfalso. apply Hnd. apply in_or_app. now left.
Qed.
End FoldSet.

Lemma dict_of_items_keys {V} (items : dict V) :
  dict_keys (dict_of_items items) = first_occurrences [] (map fst items).
Proof. unfold dict_of_items. now rewrite fold_set_keys. Qed.

Lemma dict_of_items_get {V} k (items : dict V) :
  dict_get k (dict_of_items items) = dict_get k (rev items).
Proof.
  unfold dict_of_items. rewrite fold_set_get.
  now destruct (dict_get k (rev items)).
Qed.

Lemma dict_of_items_wf {V} (items : dict V) : dict_wf (dict_of_items items).
Proof. apply fold_set_wf. constructor. Qed.

Lemma dict_of_items_NoDup {V} (items : dict V) :
  NoDup (map fst items) -> dict_of_items items = items.
Proof. intros Hnd. unfold dict_of_items. now rewrite fold_set_fresh. Qed.

(** [dict(m)] of a mapping that is a dictionary is that dictionary. *)
Lemma dict_of_mapping_from {V} (d : dict V) : forall d2 d1,
  dict_wf d -> d = (d1 ++ d2)%list ->
  fold_left (fun acc k => match dict_get k d with
                          | Some v => dict_set k v acc
                          | None => acc
                          end) (dict_keys d2) d1 = d.
Proof.
  induction d2 as [|[k v] d2 IH]; intros d1 Hwf E; cbn [dict_keys map fold_left fst].
  - now rewrite app_nil_r in E.
  - assert (Hget : dict_get k d = Some v).
    { apply In_dict_get; [exact Hwf|]. rewrite E. apply in_or_app. right. now left. }
    rewrite Hget. rewrite dict_set_fresh.
    + apply IH; [exact Hwf|]. now rewrite <- app_assoc.
    + destruct (dict_mem k d1) eqn:Hmem; [|reflexivity].
      apply dict_mem_In in Hmem. unfold dict_wf, dict_keys in Hwf.
      rewrite E, map_app in Hwf. cbn in Hwf.
      apply NoDup_remove_2 in Hwf. exfalso. apply Hwf.
      apply in_or_app. now left.
Qed.

Lemma dict_of_mapping_self {V} (d : dict V) :
  dict_wf d -> dict_of_mapping (dict_keys d) (fun k => dict_get k d) = d.
Proof. intros Hwf. now apply (dict_of_mapping_from d []). Qed.

(** [dict(m)] lists the keys of [m] with their values. *)
Lemma dict_of_mapping_fresh {V} (getitem : string -> option V) (f : string -> V) keys :
  forall acc,
  NoDup (dict_keys acc ++ keys) ->
  (forall k, In k keys -> getitem k = Some (f k)) ->
  fold_left (fun d k => match getitem k with
                        | Some v => dict_set k v d
                        | None => d
                        end) keys acc =
  (acc ++ map (fun k => (k, f k)) keys)%list.
Proof.
  induction keys as [|k keys IH]; intros acc Hnd Hget; cbn [fold_left map].
  - now rewrite app_nil_r.
  - rewrite (Hget k) by now left. rewrite dict_set_fresh.
    + rewrite IH.
      * now rewrite <- app_assoc.
      * unfold dict_keys. rewrite map_app, <- app_assoc. exact Hnd.
      * intros k' Hk'. apply Hget. now right.
    + destruct (dict_mem k acc) eqn:E; [|reflexivity].
      apply dict_mem_In in E. apply NoDup_remove_2 in Hnd.
      exfalso. apply Hnd. apply in_or_app. now left.
Qed.

Lemma dict_of_mapping_map {V} (getitem : string -> option V) (f : string -> V) keys :
  NoDup keys ->
  (forall k, In k keys -> getitem k = Some (f k)) ->
  dict_of_mapping keys getitem = map (fun k => (k, f k)) keys.
Proof.
  intros Hnd Hget. unfold dict_of_mapping.
  now rewrite (dict_of_mapping_fresh getitem f keys []).
Qed.

(** ** Query relaying *)

Lemma relay_query_dict request :
  relay_query request = qp_dict (req_query_params request).
Proof.
  unfold relay_query, qp_keys, qp_getitem, qp_dict.
  apply dict_of_mapping_self, dict_of_items_wf.
Qed.

(** C7, as stated, fails: of a query string that repeats a name,
    [?tag=a&page=2&tag=b], only the last value of the name is forwarded;
    [tag=a] does not reach the remote. *)
Lemma repeated_query_parameter_dropped :
  out_params (outbound RELAYED_HEADERS ping_handler repeated_query)
    = [("tag", "b"); ("page", "2")] /\
  out_params (outbound RELAYED_HEADERS ping_handler repeated_query)
    <> qp_list (req_query_params repeated_query) /\
  ~ In ("tag", "a") (out_params (outbound RELAYED_HEADERS ping_handler repeated_query)).
Proof.
  split; [reflexivity|]. split.
  - vm_compute. discriminate.
  - vm_compute. intros [H|[H|[]]]; discriminate.
Qed.

(** C7 (amended): the forwarded query parameters are the query mapping of
    the inbound request: every parameter name is forwarded once, in the
    order of first appearance in the inbound query, with the last value the
    query gives it.  When no name is repeated, all inbound query parameters
    are forwarded verbatim and in the inbound order. *)
Theorem query_relay allowed h request :
  let q := req_query_params request in
  let o := outbound allowed h request in
  dict_keys (out_params o) = first_occurrences [] (map fst (qp_list q)) /\
  (forall k, dict_get k (out_params o) = dict_get k (rev (qp_list q))) /\
  (NoDup (map fst (qp_list q)) -> out_params o = qp_list q).
Proof.
  cbn zeta. cbn [outbound out_params]. rewrite relay_query_dict. unfold qp_dict.
  split; [|split].
  - apply dict_of_items_keys.
  - intros k. apply dict_of_items_get.
  - apply dict_of_items_NoDup.
Qed.

Lemma query_relay_witness :
  out_params (outbound RELAYED_HEADERS ping_handler plain_query)
    = [("q", "x"); ("page", "2")].
Proof.
  apply (proj2 (proj2 (query_relay RELAYED_HEADERS ping_handler plain_query))).
  cbn. repeat constructor; simpl; intuition discriminate.
Defined.

(** ** Response normalisation *)

Lemma ascii_lower_idempotent c : ascii_lower (ascii_lower c) = ascii_lower c.
Proof.
  destruct c as [[] [] [] [] [] [] [] []]; reflexivity.
Qed.

Lemma str_lower_idempotent s : str_lower (str_lower s) = str_lower s.
Proof.
  induction s as [|c s IH]; [reflexivity|].
  cbn. now rewrite ascii_lower_idempotent, IH.
Qed.

Lemma httpx_values_lower name hs :
  httpx_values (str_lower name) hs = httpx_values name hs.
Proof. unfold httpx_values. now rewrite str_lower_idempotent. Qed.

Lemma httpx_keys_names hs : httpx_keys hs = first_occurrences [] (header_names hs).
Proof.
  unfold httpx_keys, header_names. rewrite dict_of_items_keys, map_map.
  reflexivity.
Qed.

Lemma httpx_values_In name value hs :
  In (name, value) hs -> In value (httpx_values name hs).
Proof.
  intros HIn. unfold httpx_values. apply in_map_iff.
  exists (name, value). split; [reflexivity|].
  apply filter_In. split; [exact HIn|]. apply String.eqb_refl.
Qed.

Lemma httpx_getitem_present k hs :
  In k (header_names hs) ->
  httpx_getitem k hs = Some (String.concat ", " (httpx_values k hs)).
Proof.
  unfold header_names. intros [[name value] [<- HIn]]%in_map_iff. cbn [fst].
  apply httpx_values_In in HIn. rewrite <- httpx_values_lower in HIn.
  unfold httpx_getitem.
  destruct (httpx_values (str_lower name) hs); [destruct HIn | reflexivity].
Qed.

Lemma relay_response_headers_map response :
  relay_response_headers response =
  map (fun k => (k, String.concat ", " (httpx_values k (resp_headers response))))
      (first_occurrences [] (header_names (resp_headers response))).
Proof.
  unfold relay_response_headers. rewrite httpx_keys_names.
  apply dict_of_mapping_map; [apply first_occurrences_NoDup|].
  intros k Hk. apply first_occurrences_In in Hk as [Hk _].
  now apply httpx_getitem_present.
Qed.


Lemma lowercase_names_In hs name value :
  lowercase_names hs = true -> In (name, value) hs -> str_lower name = name.
Proof.
  unfold lowercase_names. rewrite forallb_forall. intros H HIn.
  apply String.eqb_eq. exact (H (name, value) HIn).
Qed.

Lemma filter_none {A} (f : A -> bool) l :
  (forall x, In x l -> f x = false) -> filter f l = [].
Proof.
  induction l as [|a l IH]; intros H; [reflexivity|].
  cbn. rewrite (H a) by now left. apply IH. intros x Hx. apply H. now right.
Qed.

Lemma values_of_unique_name hs : forall name value,
  lowercase_names hs = true -> NoDup (map fst hs) -> In (name, value) hs ->
  map snd (filter (fun kv => str_lower (fst kv) =? name) hs) = [value].
Proof.
  induction hs as [|[k0 v0] hs IH]; intros name value Hlow Hnd HIn; [destruct HIn|].
  assert (Hk0 := lowercase_names_In _ k0 v0 Hlow (or_introl eq_refl)).
  cbn [lowercase_names forallb] in Hlow. apply andb_prop in Hlow as [_ Hlow].
  cbn [map fst] in Hnd. apply NoDup_cons_iff in Hnd as [Hfresh Hnd].
  cbn [filter fst]. rewrite Hk0.
  destruct HIn as [[= -> ->]|HIn].
  - rewrite String.eqb_refl. cbn [map snd]. f_equal.
    rewrite filter_none; [reflexivity|].
    intros [k v] Hkv. cbn [fst]. apply String.eqb_neq.
    rewrite (lowercase_names_In _ _ _ Hlow Hkv). intros ->.
    apply Hfresh. apply (in_map fst) in Hkv. exact Hkv.
  - destruct (String.eqb_spec k0 name) as [->|Hne].
    + exfalso. apply Hfresh. apply (in_map fst) in HIn. exact HIn.
    + now apply IH.
Qed.

Lemma httpx_values_single hs name value :
  lowercase_names hs = true -> NoDup (map fst hs) -> In (name, value) hs ->
  httpx_values name hs = [value].
Proof.
  intros Hlow Hnd HIn. unfold httpx_values.
  rewrite (lowercase_names_In _ _ _ Hlow HIn).
  now apply values_of_unique_name.
Qed.

Lemma relay_response_headers_verbatim response :
  lowercase_names (resp_headers response) = true ->
  NoDup (map fst (resp_headers response)) ->
  relay_response_headers response = resp_headers response.
Proof.
  intros Hlow Hnd. rewrite relay_response_headers_map.
  assert (Hnames : header_names (resp_headers response) = map fst (resp_headers response)).
  { unfold header_names. apply map_ext_in. intros [name value] HIn.
    exact (lowercase_names_In _ _ _ Hlow HIn). }
  rewrite Hnames, first_occurrences_id by (auto; intros k _ []).
  rewrite map_map. rewrite <- (map_id (resp_headers response)) at 2.
  apply map_ext_in. intros [name value] HIn. cbn [fst].
  rewrite (httpx_values_single _ _ _ Hlow Hnd HIn). reflexivity.
Qed.





(** ** Schema fetch and assembly *)

Lemma is_success_range status :
  is_success status = true <-> (200 <= status <= 299)%Z.
Proof. unfold is_success. lia. Qed.

(** C8, as stated, fails: a reply with status 201 and a decodable body is
    accepted -- the fetch rejects the statuses outside 2xx, not those other
    than 200 -- and assembly goes on to register the routes. *)
Lemma fetch_accepts_status_201 :
  fetch_openapi_schema FASTAPI_SERVICE_URL (FetchReplied 201 (Some demo_schema))
    = Ok demo_schema /\
  List.length (registered_routes
                 (setup_mcp_server (FetchReplied 201 (Some demo_schema)) Some)) = 3.
Proof. split; reflexivity. Qed.

(** C8 (amended): the schema fetch succeeds only on a 2xx status with a
    JSON-decodable body; it fails on a connection or timeout error, on
    every status outside 2xx and on an undecodable body; and whenever the
    fetch fails at startup, assembly returns a failure and no route is
    registered. *)
Theorem fetch_and_startup api_url reply :
  (forall schema,
      fetch_openapi_schema api_url reply = Ok schema <->
      exists status,
        reply = FetchReplied status (Some schema) /\ (200 <= status <= 299)%Z) /\
  (forall e, reply = FetchRequestError e ->
             fetch_openapi_schema api_url reply = Raise (CannotConnect api_url e)) /\
  (forall status body,
      reply = FetchReplied status body -> (status < 200 \/ 299 < status)%Z ->
      fetch_openapi_schema api_url reply = Raise (BadStatus status)) /\
  (forall status,
      reply = FetchReplied status None -> (200 <= status <= 299)%Z ->
      fetch_openapi_schema api_url reply = Raise JSONDecodeError) /\
  (forall failure mcp_mount,
      fetch_openapi_schema FASTAPI_SERVICE_URL reply = Raise failure ->
      setup_mcp_server reply mcp_mount = Ok None /\
      registered_routes (setup_mcp_server reply mcp_mount) = []).
Proof.
  split; [|split; [|split; [|split]]].
  - intros schema. split.
    + destruct reply as [e|status [body|]]; cbn; try discriminate;
        destruct (is_success status) eqn:E; try discriminate.
      intros [= ->]. exists status. split; [reflexivity|].
      now apply is_success_range.
    + intros [status [-> Hrange]]. cbn.
      apply is_success_range in Hrange. now rewrite Hrange.
  - now intros e ->.
  - intros status body -> Hrange. cbn.
    destruct (is_success status) eqn:E; [|reflexivity].
    apply is_success_range in E. lia.
  - intros status -> Hrange. cbn.
    apply is_success_range in Hrange. now rewrite Hrange.
  - intros failure mcp_mount Hfail. unfold setup_mcp_server.
    rewrite Hfail. split; reflexivity.
Qed.

Lemma fetch_and_startup_witness :
  fetch_openapi_schema FASTAPI_SERVICE_URL (FetchReplied 200 (Some demo_schema))
    = Ok demo_schema /\
  fetch_openapi_schema FASTAPI_SERVICE_URL (FetchReplied 404 None)
    = Raise (BadStatus 404) /\
  fetch_openapi_schema FASTAPI_SERVICE_URL (FetchReplied 200 None)
    = Raise JSONDecodeError /\
  setup_mcp_server (FetchRequestError "connection refused") Some = Ok None.
Proof.
  split; [|split; [|split]].
  - apply (proj1 (fetch_and_startup FASTAPI_SERVICE_URL
                    (FetchReplied 200 (Some demo_schema)))).
    exists 200%Z. split; [reflexivity | lia].
  - apply (proj1 (proj2 (proj2 (fetch_and_startup FASTAPI_SERVICE_URL
                                  (FetchReplied 404 None)))) 404%Z None);
      [reflexivity | lia].
  - apply (proj1 (proj2 (proj2 (proj2 (fetch_and_startup FASTAPI_SERVICE_URL
                                         (FetchReplied 200 None))))) 200%Z);
      [reflexivity | lia].
  - apply (proj2 (proj2 (proj2 (proj2 (fetch_and_startup FASTAPI_SERVICE_URL
                                         (FetchRequestError "connection refused")))))
             (CannotConnect FASTAPI_SERVICE_URL "connection refused") Some).
    reflexivity.
Defined.

(** When the fetch succeeds, every path of the document is accepted and
    the MCP layer mounts, the application carries exactly the routes of the
    builder. *)
Lemma setup_registers_built_routes status schema :
  is_success status = true -> routable schema = true ->
  registered_routes (setup_mcp_server (FetchReplied status (Some schema)) Some)
    = build FASTAPI_SERVICE_URL schema.
Proof.
  intros Hok Hroutable. unfold setup_mcp_server. cbn [fetch_openapi_schema].
  rewrite Hok, create_proxy_routes_routable by exact Hroutable.
  cbn [registered_routes extend_app app_routes app]. 
  now rewrite build_spec.
Qed.

(* ================================================================== *)
(** * Further properties of the builder *)

Lemma dict_wf_perm {V} (d d' : dict V) :
  dict_wf d -> Permutation d d' -> dict_wf d'.
Proof.
  unfold dict_wf, dict_keys. intros Hwf Hperm.
  exact (Permutation_NoDup (Permutation_map fst Hperm) Hwf).
Qed.

Lemma dict_get_perm {V} k (d d' : dict V) :
  dict_wf d -> Permutation d d' -> dict_get k d' = dict_get k d.
Proof.
  intros Hwf Hperm. assert (Hwf' := dict_wf_perm Hwf Hperm).
  destruct (dict_get k d) as [v|] eqn:E.
  - apply In_dict_get; [exact Hwf'|].
    apply (Permutation_in _ Hperm). now apply dict_get_In.
  - apply dict_get_None. apply dict_get_None in E. intros HIn. apply E.
    unfold dict_keys in *.
    exact (Permutation_in _ (Permutation_sym (Permutation_map fst Hperm)) HIn).
Qed.

Lemma In_routes_of_method target_url path item m r :
  In r (routes_of_method target_url path item m) <->
  exists operation,
    dict_get m item = Some operation /\ r = route_for target_url path m operation.
Proof.
  unfold routes_of_method. destruct (dict_get m item) as [operation|]; cbn.
  - split.
    + intros [<-|[]]. now exists operation.
    + intros [operation' [[= <-] ->]]. now left.
  - split; [tauto|]. intros [operation [E _]]. discriminate.
Qed.

Lemma route_keys_of_entries target_url entries :
  map route_key (flat_map (routes_of_path target_url) entries) =
  flat_map (fun entry => map (pair (fst entry)) (present_methods (snd entry)))
           entries.
Proof.
  unfold present_methods.
  induction entries as [|entry entries IH]; [reflexivity|].
  cbn [flat_map]. now rewrite map_app, route_keys_of_path, IH.
Qed.

(** X1: The table lists the paths in the order of the document and, under
    each path, the methods found there in the fixed order get, post, put,
    delete, patch: those of the paths that come before the first refused
    one, and those of every path when the router accepts them all. *)
Theorem build_order target_url S :
  map route_key (build target_url S) =
    flat_map (fun entry => map (pair (fst entry)) (present_methods (snd entry)))
             (fst (registered_entries (paths S))) /\
  (routable S = true ->
   map route_key (build target_url S) =
     flat_map (fun entry => map (pair (fst entry)) (present_methods (snd entry)))
              (paths S)).
Proof.
  split.
  - now rewrite build_registered, route_keys_of_entries.
  - intros Hroutable. rewrite (build_spec target_url S Hroutable).
    apply route_keys_of_entries.
Qed.

Lemma build_order_witness :
  map route_key (build FASTAPI_SERVICE_URL demo_schema) =
  [("/users/{user_id}", "get"); ("/users/{user_id}", "delete"); ("/items", "post")].
Proof.
  rewrite (proj2 (build_order FASTAPI_SERVICE_URL demo_schema) eq_refl).
  reflexivity.
Defined.

(** Path items with the same operations give the same routes and are
    refused alike. *)
Lemma routes_of_path_perm target_url (entry entry' : string * PathItem) :
  fst entry = fst entry' -> dict_wf (snd entry) ->
  Permutation (snd entry) (snd entry') ->
  routes_of_path target_url entry' = routes_of_path target_url entry.
Proof.
  intros Hpath Hwf Hperm. unfold routes_of_path. rewrite <- Hpath.
  apply flat_map_ext. intros m.
  unfold routes_of_method. now rewrite (dict_get_perm m Hwf Hperm).
Qed.

Lemma entry_refused_perm (entry entry' : string * PathItem) :
  fst entry = fst entry' -> dict_wf (snd entry) ->
  Permutation (snd entry) (snd entry') ->
  entry_refused entry' = entry_refused entry.
Proof.
  intros Hpath Hwf Hperm. unfold entry_refused, present_methods.
  rewrite <- Hpath.
  assert (E : filter (fun m => dict_mem m (snd entry')) METHODS =
              filter (fun m => dict_mem m (snd entry)) METHODS).
  { apply filter_ext. intros m. unfold dict_mem.
    now rewrite (dict_get_perm m Hwf Hperm). }
  now rewrite E.
Qed.

Lemma registered_routes_same_operations target_url entries entries' :
  Forall2 (fun entry entry' =>
             fst entry = fst entry' /\ dict_wf (snd entry) /\
             Permutation (snd entry) (snd entry')) entries entries' ->
  flat_map (routes_of_path target_url) (fst (registered_entries entries')) =
  flat_map (routes_of_path target_url) (fst (registered_entries entries)) /\
  snd (registered_entries entries') = snd (registered_entries entries).
Proof.
  induction 1 as [|entry entry' entries entries' (Hpath & Hwf & Hperm) _ IH];
    [now split|].
  cbn [registered_entries]. rewrite (entry_refused_perm entry entry' Hpath Hwf Hperm).
  destruct (entry_refused entry); [now split|].
  destruct (registered_entries entries) as [before refused].
  destruct (registered_entries entries') as [before' refused'].
  cbn [fst snd flat_map] in *. destruct IH as [-> ->].
  now rewrite (routes_of_path_perm target_url entry entry' Hpath Hwf Hperm).
Qed.

(** X2: The order in which a path item lists its methods does not matter: two
    documents with the same paths, whose path items hold the same
    operations in any order, give the same table. *)
Theorem build_ignores_method_key_order target_url S S' :
  same_operations S S' -> build target_url S' = build target_url S.
Proof.
  unfold same_operations. intros Hsame. rewrite !build_registered.
  exact (proj1 (registered_routes_same_operations target_url Hsame)).
Qed.

Lemma build_ignores_method_key_order_witness :
  build FASTAPI_SERVICE_URL demo_schema_reordered =
  build FASTAPI_SERVICE_URL demo_schema.
Proof.
  apply build_ignores_method_key_order.
  apply Forall2_cons; [|apply Forall2_cons; [|apply Forall2_nil]];
    (split; [reflexivity|split]); cbn [snd].
  - unfold dict_wf. cbn. repeat constructor; simpl; intuition discriminate.
  - apply perm_trans with [("get", undeclared); ("delete", undeclared); ("head", undeclared)].
    + apply perm_skip. apply perm_swap.
    + apply perm_trans with [("delete", undeclared); ("get", undeclared); ("head", undeclared)].
      * apply perm_swap.
      * apply perm_skip. apply perm_swap.
  - unfold dict_wf. cbn. repeat constructor; simpl; tauto.
  - apply Permutation_refl.
Defined.

Lemma In_routes_of_entries target_url entries r :
  In r (flat_map (routes_of_path target_url) entries) <->
  exists path item m operation,
    In (path, item) entries /\ In m METHODS /\
    dict_get m item = Some operation /\
    r = route_for target_url path m operation.
Proof.
  rewrite in_flat_map. split.
  - intros [[path item] [Hentry Hr]]. unfold routes_of_path in Hr.
    cbn [fst snd] in Hr. apply in_flat_map in Hr as [m [Hm Hr]].
    apply In_routes_of_method in Hr as [operation [Hget ->]].
    now exists path, item, m, operation.
  - intros (path & item & m & operation & Hentry & Hm & Hget & ->).
    exists (path, item). split; [exact Hentry|].
    unfold routes_of_path. cbn [fst snd]. apply in_flat_map.
    exists m. split; [exact Hm|]. apply In_routes_of_method.
    now exists operation.
Qed.

(** X3: The table holds exactly the routes of the operations listed under
    one of the five methods by the paths that come before the first
    refused one -- by all paths of the document when the router accepts
    them all.  On each route the verb of the registration, the method the
    handler forwards with and the method of the document agree, the
    handler forwards to the path it is registered under, and to the target
    the builder was given. *)
Theorem build_routes_characterised target_url S r :
  (In r (build target_url S) <->
   exists path item m operation,
     In (path, item) (fst (registered_entries (paths S))) /\ In m METHODS /\
     dict_get m item = Some operation /\
     r = route_for target_url path m operation) /\
  (routable S = true ->
   (In r (build target_url S) <->
    exists path item m operation,
      In (path, item) (paths S) /\ In m METHODS /\
      dict_get m item = Some operation /\
      r = route_for target_url path m operation)) /\
  (In r (build target_url S) ->
   h_method (route_handler r) = route_verb r /\
   h_path_template (route_handler r) = route_path r /\
   h_target_url (route_handler r) = target_url /\
   In (route_verb r) ["GET"; "POST"; "PUT"; "DELETE"; "PATCH"]).
Proof.
  split; [|split].
  - rewrite build_registered. apply In_routes_of_entries.
  - intros Hroutable. rewrite (build_spec target_url S Hroutable).
    apply In_routes_of_entries.
  - rewrite build_registered.
    intros (path & item & m & operation & _ & Hm & _ & ->)%In_routes_of_entries.
    cbn [route_for route_handler route_verb route_path create_proxy_handler
         h_method h_path_template h_target_url].
    repeat split. unfold METHODS in Hm. cbn [In] in Hm.
    repeat destruct Hm as [<-|Hm]; cbn; tauto.
Qed.

Lemma build_routes_characterised_witness :
  In (route_for FASTAPI_SERVICE_URL "/items" "post" undeclared)
     (build FASTAPI_SERVICE_URL demo_schema) /\
  h_method (route_handler (route_for FASTAPI_SERVICE_URL "/items" "post" undeclared))
    = "POST".
Proof.
  assert (HIn : In (route_for FASTAPI_SERVICE_URL "/items" "post" undeclared)
                   (build FASTAPI_SERVICE_URL demo_schema)).
  { apply (proj1 (proj2 (build_routes_characterised FASTAPI_SERVICE_URL demo_schema _))
             eq_refl).
    exists "/items", [("post", undeclared)], "post", undeclared.
    repeat split; cbn; tauto. }
  split; [exact HIn|].
  exact (proj1 (proj2 (proj2 (build_routes_characterised FASTAPI_SERVICE_URL
                                demo_schema _)) HIn)).
Defined.

(** X4: Registration only appends, whether it returns or raises: the title
    and the routes the application already has are kept and the routes of
    the table come after them.  When it returns, the returned count is the
    number of routes added, and a second document registered on the same
    application adds its table after the first. *)
Theorem create_proxy_routes_appends app S S' target_url :
  let app' := app_after (create_proxy_routes app S target_url) in
  app_title app' = app_title app /\
  app_routes app' = (app_routes app ++ build target_url S)%list /\
  (forall app1 n1,
      create_proxy_routes app S target_url = Ok (app1, n1) ->
      app1 = app' /\ n1 = List.length (build target_url S) /\
      app_routes (app_after (create_proxy_routes app1 S' target_url)) =
        (app_routes app ++ build target_url S ++ build target_url S')%list).
Proof.
  cbn zeta. rewrite app_after_create. cbn [extend_app app_title app_routes].
  split; [reflexivity|split; [reflexivity|]].
  intros app1 n1 Hok.
  assert (Happ := app_after_create app S target_url). rewrite Hok in Happ.
  cbn [app_after] in Happ. subst app1. split; [reflexivity|].
  split.
  - revert Hok. rewrite create_proxy_routes_spec, build_registered.
    destruct (registered_entries (paths S)) as [before [e|]]; [discriminate|].
    cbn [fst]. now intros [= <-].
  - rewrite app_after_create. cbn [extend_app app_routes].
    now rewrite app_assoc.
Qed.

Lemma create_proxy_routes_appends_witness :
  app_routes (app_after (create_proxy_routes demo_app colliding_schema
                           FASTAPI_SERVICE_URL)) =
  (build FASTAPI_SERVICE_URL demo_schema ++
   build FASTAPI_SERVICE_URL colliding_schema)%list.
Proof.
  exact (proj1 (proj2 (create_proxy_routes_appends demo_app colliding_schema
                         colliding_schema FASTAPI_SERVICE_URL))).
Defined.

Lemma present_methods_nothing (item : PathItem) :
  (forall m, In m METHODS -> dict_get m item = None) -> present_methods item = [].
Proof.
  intros Hnone. unfold present_methods. apply filter_none.
  intros m Hm. unfold dict_mem. now rewrite (Hnone m Hm).
Qed.

(** X5: A document whose path items carry none of the five method keys (an
    empty document among them) registers nothing: the application is
    returned as it was, with the count 0. *)
Theorem create_proxy_routes_nothing_recognised app S target_url :
  (forall entry m, In entry (paths S) -> In m METHODS ->
                   dict_get m (snd entry) = None) ->
  create_proxy_routes app S target_url = Ok (app, 0).
Proof.
  intros Hnone.
  assert (Hroutable : routable S = true).
  { unfold routable. apply forallb_forall. intros entry Hentry.
    unfold entry_refused.
    now rewrite (present_methods_nothing (snd entry) (fun m => Hnone entry m Hentry)). }
  rewrite (create_proxy_routes_routable app S target_url Hroutable).
  assert (E : routes_of_schema target_url S = []).
  { unfold routes_of_schema. clear Hroutable.
    induction (paths S) as [|entry entries IH]; [reflexivity|].
    cbn [flat_map]. unfold routes_of_path at 1.
    rewrite routes_of_absent_methods, IH; [reflexivity| |].
    - intros entry' m HIn. apply Hnone. now right.
    - apply (present_methods_nothing (snd entry)). intros m. apply Hnone. now left. }
  rewrite E. unfold extend_app. rewrite app_nil_r. now destruct app.
Qed.

Lemma create_proxy_routes_nothing_recognised_witness :
  create_proxy_routes demo_app unrecognised_schema FASTAPI_SERVICE_URL
    = Ok (demo_app, 0).
Proof.
  apply create_proxy_routes_nothing_recognised.
  intros entry m [<-|[<-|[]]] Hm; unfold METHODS in Hm; cbn [In] in Hm;
    repeat destruct Hm as [<-|Hm]; try reflexivity; destruct Hm.
Defined.

(* ================================================================== *)
(** * The builder of mcp_proxy_server.py *)

Lemma filter_nil_iff {A} (f : A -> bool) l :
  filter f l = [] <-> forall x, In x l -> f x = false.
Proof.
  split.
  - intros Hnil x Hx. destruct (f x) eqn:E; [|reflexivity].
    assert (HIn : In x (filter f l)) by now apply filter_In.
    rewrite Hnil in HIn. destruct HIn.
  - induction l as [|a l IH]; intros H; [reflexivity|].
    cbn. rewrite (H a) by now left. apply IH. intros x Hx. apply H. now right.
Qed.

Lemma present_methods_nil_iff (item : PathItem) :
  present_methods item = [] <->
  filter (fun m => str_in m METHODS) (dict_keys item) = [].
Proof.
  unfold present_methods. rewrite !filter_nil_iff. split.
  - intros Hnone k Hk. destruct (str_in k METHODS) eqn:E; [|reflexivity].
    apply str_in_In in E. specialize (Hnone k E).
    apply dict_mem_In in Hk. congruence.
  - intros Hnone m Hm. destruct (dict_mem m item) eqn:E; [|reflexivity].
    apply dict_mem_In in E. specialize (Hnone m E).
    apply str_in_In in Hm. congruence.
Qed.

Lemma proxy_register_method_spec path (item : PathItem) app m :
  In m METHODS ->
  mcp_proxy_server.register_method path item app m =
  match dict_get m item with
  | None => Ok app
  | Some _ => Raise (mcp_proxy_server.NotCallable, app)
  end.
Proof.
  unfold METHODS. cbn [In]. intros Hm. unfold mcp_proxy_server.register_method.
  destruct (dict_get m item) as [operation|]; [|reflexivity].
  repeat destruct Hm as [<-|Hm]; try destruct Hm; reflexivity.
Qed.

Lemma proxy_register_methods_spec path (item : PathItem) app ms :
  (forall m, In m ms -> In m METHODS) ->
  for_each (mcp_proxy_server.register_method path item) ms app =
  match filter (fun m => dict_mem m item) ms with
  | [] => Ok app
  | _ :: _ => Raise (mcp_proxy_server.NotCallable, app)
  end.
Proof.
  induction ms as [|m ms IH]; intros Hms; [reflexivity|].
  cbn [for_each filter]. rewrite proxy_register_method_spec by (apply Hms; now left).
  unfold dict_mem at 1. destruct (dict_get m item); [reflexivity|].
  apply IH. intros m' Hm'. apply Hms. now right.
Qed.

Lemma proxy_register_paths_spec entries app :
  for_each mcp_proxy_server.register_path entries app =
  match flat_map (fun entry => map (pair (fst entry)) (present_methods (snd entry)))
                 entries with
  | [] => Ok app
  | _ :: _ => Raise (mcp_proxy_server.NotCallable, app)
  end.
Proof.
  induction entries as [|entry entries IH]; [reflexivity|].
  cbn [for_each flat_map]. unfold mcp_proxy_server.register_path at 1.
  rewrite proxy_register_methods_spec by tauto.
  fold (present_methods (snd entry)).
  destruct (present_methods (snd entry)); [exact IH | reflexivity].
Qed.

Lemma recognised_pairs_nil_iff S :
  recognised_pairs S = [] <->
  flat_map (fun entry => map (pair (fst entry)) (present_methods (snd entry)))
           (paths S) = [].
Proof.
  rewrite recognised_pairs_unfold.
  induction (paths S) as [|entry entries IH]; [tauto|].
  cbn [flat_map]. split; intros [Hentry Hrest]%app_eq_nil;
    apply IH in Hrest; apply map_eq_nil in Hentry.
  - apply (proj2 (present_methods_nil_iff (snd entry))) in Hentry.
    rewrite Hrest, app_nil_r.
    etransitivity; [apply f_equal; exact Hentry | reflexivity].
  - apply (proj1 (present_methods_nil_iff (snd entry))) in Hentry.
    rewrite Hrest, app_nil_r.
    etransitivity; [apply f_equal; exact Hentry | reflexivity].
Qed.

(** X11: The builder of mcp_proxy_server.py registers no route.  On a
    document that lists an operation under one of the five methods it
    raises at the first of them, because what it hands to the router is a
    coroutine object and not a function, and leaves the application as it
    was; it returns only when the document lists no such operation, and
    then too the application is as it was. *)
Theorem proxy_server_builder_registers_nothing app S :
  mcp_proxy_server.create_proxy_routes app S =
  match recognised_pairs S with
  | [] => Ok app
  | _ :: _ => Raise (mcp_proxy_server.NotCallable, app)
  end.
Proof.
  unfold mcp_proxy_server.create_proxy_routes. rewrite proxy_register_paths_spec.
  destruct (recognised_pairs S) eqn:E.
  - apply recognised_pairs_nil_iff in E. now rewrite E.
  - destruct (flat_map _ (paths S)) eqn:E'; [|reflexivity].
    apply recognised_pairs_nil_iff in E'. congruence.
Qed.

(* ================================================================== *)
(** * Further properties of the generated identifiers *)

Lemma occurs_flatten_path path :
  occurs "/" (flatten_path path) = false /\
  occurs "{" (flatten_path path) = false /\
  occurs "}" (flatten_path path) = false.
Proof.
  induction path as [|c path (IHs & IHo & IHc)]; [now cbn|].
  cbn [flatten_path]. unfold is_brace.
  destruct (Ascii.eqb_spec c "/") as [->|Hs]; [cbn; auto|].
  destruct (Ascii.eqb_spec c "{") as [->|Ho]; [cbn; auto|].
  destruct (Ascii.eqb_spec c "}") as [->|Hc]; [cbn; auto|].
  cbn [orb occurs]. rewrite IHs, IHo, IHc.
  apply Ascii.eqb_neq in Hs, Ho, Hc. rewrite Hs, Ho, Hc. auto.
Qed.

Lemma occurs_cons c c' s :
  occurs c (String c' s) = false -> Ascii.eqb c' c = false /\ occurs c s = false.
Proof. cbn. now intros [? ?]%orb_false_elim. Qed.

Lemma occurs_lstrip c s chars :
  occurs c s = false -> occurs c (str_lstrip s chars) = false.
Proof.
  induction s as [|c' s IH]; [auto|]. intros H. cbn [str_lstrip].
  destruct (in_chars c' chars); [|exact H].
  apply IH. now apply occurs_cons in H.
Qed.

Lemma occurs_rstrip c s chars :
  occurs c s = false -> occurs c (str_rstrip s chars) = false.
Proof.
  induction s as [|c' s IH]; [auto|]. intros H. cbn [str_rstrip].
  apply occurs_cons in H as [Hc' Hs]. specialize (IH Hs).
  destruct (str_rstrip s chars) as [|c'' r].
  - destruct (in_chars c' chars); cbn; [reflexivity|]. now rewrite Hc'.
  - cbn [occurs] in *. now rewrite Hc'.
Qed.

Lemma first_char_lstrip s c :
  first_char (str_lstrip s (String c "")) <> Some c.
Proof.
  induction s as [|c' s IH]; [discriminate|]. cbn [str_lstrip in_chars].
  destruct (Ascii.eqb_spec c c') as [->|Hne]; cbn [orb]; [exact IH|].
  cbn. congruence.
Qed.

Lemma last_char_rstrip s c :
  last_char (str_rstrip s (String c "")) <> Some c.
Proof.
  induction s as [|c' s IH]; [discriminate|]. cbn [str_rstrip in_chars].
  destruct (str_rstrip s (String c "")) as [|c'' r].
  - destruct (Ascii.eqb_spec c c') as [->|Hne]; cbn [orb]; [discriminate|].
    cbn. congruence.
  - exact IH.
Qed.

Lemma first_char_rstrip s chars :
  str_rstrip s chars = "" \/ first_char (str_rstrip s chars) = first_char s.
Proof.
  destruct s as [|c s]; [now left|]. cbn [str_rstrip].
  destruct (str_rstrip s chars).
  - destruct (in_chars c chars); [now left | now right].
  - now right.
Qed.

(** X6: Whatever the path, its normalised text contains no separator and no
    brace, and neither begins nor ends with an underscore. *)
Theorem normalized_path_shape path :
  occurs "/" (normalized_path path) = false /\
  occurs "{" (normalized_path path) = false /\
  occurs "}" (normalized_path path) = false /\
  first_char (normalized_path path) <> Some "_"%char /\
  last_char (normalized_path path) <> Some "_"%char.
Proof.
  rewrite normalized_path_flatten. unfold str_strip.
  destruct (occurs_flatten_path path) as (Hs & Ho & Hc).
  repeat split; try (now apply occurs_rstrip, occurs_lstrip).
  - destruct (first_char_rstrip (str_lstrip (flatten_path path) "_") "_") as [E|E];
      rewrite E; [discriminate | apply first_char_lstrip].
  - apply last_char_rstrip.
Qed.

(** X7: For the five methods, two generated identifiers are the same exactly
    when the methods are the same and the paths normalise to the same
    text: identifiers of different methods never collide. *)
Theorem generated_identifiers_equal_iff m m' path path' :
  In m METHODS -> In m' METHODS ->
  (derive_operation_id m path = derive_operation_id m' path' <->
   m = m' /\ normalized_path path = normalized_path path').
Proof.
  intros Hm Hm'. split.
  - now apply derive_separates.
  - intros [-> E]. unfold derive_operation_id. now rewrite E.
Qed.

Lemma generated_identifiers_equal_iff_witness :
  derive_operation_id "get" "/a/b" = derive_operation_id "get" "/a_b/".
Proof.
  apply (@generated_identifiers_equal_iff "get" "get" "/a/b" "/a_b/");
    [now left | now left | split; reflexivity].
Defined.

(* ================================================================== *)
(** * Further properties of path substitution *)

Lemma replace_from_brace_free name new text :
  brace_free text = true -> replace_from (placeholder name) new 0 text = text.
Proof.
  intros Hfree. rewrite <- (append_nil_r text) at 1.
  rewrite replace_from_literal by exact Hfree. cbn. apply append_nil_r.
Qed.

Lemma substitute_path_brace_free params : forall text,
  brace_free text = true -> substitute_path text params = text.
Proof.
  unfold substitute_path.
  induction params as [|[name value] params IH]; intros text Hfree; [reflexivity|].
  cbn [fold_left]. unfold substitute_param at 2. cbn [fst snd].
  fold (placeholder name).
  rewrite str_replace_placeholder, replace_from_brace_free by exact Hfree.
  now apply IH.
Qed.

(** X8: A route whose path has no brace is forwarded to the target followed by
    that path, whatever the inbound path parameters are. *)
Theorem outbound_url_without_placeholder allowed h request :
  brace_free (h_path_template h) = true ->
  out_url (outbound allowed h request) = h_target_url h ++ h_path_template h.
Proof.
  intros Hfree. cbn [outbound out_url].
  now rewrite substitute_path_brace_free.
Qed.

Lemma outbound_url_without_placeholder_witness :
  out_url (outbound RELAYED_HEADERS ping_handler user_request)
    = "http://localhost:6673/ping".
Proof.
  rewrite (@outbound_url_without_placeholder RELAYED_HEADERS ping_handler
             user_request); reflexivity.
Defined.

Lemma params_ok_perm params params' :
  Permutation params params' -> params_ok params = true -> params_ok params' = true.
Proof.
  unfold params_ok. rewrite !forallb_forall. intros Hperm H kv HIn.
  apply H. exact (Permutation_in _ (Permutation_sym Hperm) HIn).
Qed.

Lemma spec_substitute_perm segs params params' :
  dict_wf params -> Permutation params params' ->
  spec_substitute segs params' = spec_substitute segs params.
Proof.
  intros Hwf Hperm. unfold spec_substitute. f_equal.
  apply map_ext. intros [text|name]; [reflexivity|].
  cbn [spec_fill_segment]. now rewrite (dict_get_perm name Hwf Hperm).
Qed.

(** X9: When no parameter name or value contains a brace and the names are
    different, the order in which the inbound mapping lists the path
    parameters does not change the resolved path. *)
Theorem substitute_path_order_irrelevant segs params params' :
  forallb segment_ok segs = true -> params_ok params = true ->
  dict_wf params -> Permutation params params' ->
  substitute_path (render_template segs) params' =
  substitute_path (render_template segs) params.
Proof.
  intros Hsegs Hparams Hwf Hperm.
  rewrite (@substitute_path_segments params' segs Hsegs (params_ok_perm Hperm Hparams)).
  rewrite (@substitute_path_segments params segs Hsegs Hparams).
  now apply spec_substitute_perm.
Qed.

Lemma substitute_path_order_irrelevant_witness :
  substitute_path (render_template items_template) [("sub_id", "3"); ("id", "7")] =
  substitute_path (render_template items_template) [("id", "7"); ("sub_id", "3")].
Proof.
  apply substitute_path_order_irrelevant.
  - reflexivity.
  - reflexivity.
  - unfold dict_wf. cbn. repeat constructor; simpl; intuition discriminate.
  - apply perm_swap.
Defined.

(* ================================================================== *)
(** * Further properties of the handler *)

(** X10: The outbound headers are the inbound authorization header, when there
    is one, followed by the inbound content-type header, when there is
    one, whatever the order of the inbound headers. *)
Theorem relayed_headers_in_allow_list_order h request :
  out_headers (outbound RELAYED_HEADERS h request) =
  (header_entry "authorization" (req_headers request) ++
   header_entry "content-type" (req_headers request))%list.
Proof.
  cbn [outbound out_headers]. unfold relay_headers, RELAYED_HEADERS.
  cbn [fold_left]. rewrite !relay_header_getitem. unfold header_entry.
  destruct (headers_getitem "authorization" (req_headers request)),
    (headers_getitem "content-type" (req_headers request)); reflexivity.
Qed.

(** X17: With POST, PUT or PATCH, a body that decodes to a falsy JSON value
    (the empty object, the empty array, 0, the empty string, false, null)
    and an empty raw body give an outbound call without any body: neither
    the JSON argument nor the content argument is set. *)
Theorem falsy_body_dropped allowed h request :
  str_in (req_method request) BODY_METHODS = true ->
  let o := outbound allowed h request in
  Forall (fun v => truthy v = false)
         [PyDict []; PyList []; PyInt 0; PyStr ""; PyBool false; PyNone] /\
  (forall v, req_json request = Some v -> truthy v = false ->
             out_json o = PyNone /\ out_content o = PyNone) /\
  (req_json request = None -> req_body request = Some [] ->
   out_json o = PyNone /\ out_content o = PyNone).
Proof.
  intros Hmethod. cbn zeta. cbn [outbound out_json out_content].
  unfold json_argument, content_argument. split; [|split].
  - repeat constructor.
  - intros v Hjson Hfalsy.
    rewrite (read_body_json request Hmethod Hjson), Hfalsy. now split.
  - intros Hjson Hbody.
    rewrite (read_body_raw request Hmethod Hjson Hbody). now split.
Qed.

Lemma falsy_body_dropped_witness :
  out_json (outbound RELAYED_HEADERS ping_handler empty_object_request) = PyNone /\
  out_content (outbound RELAYED_HEADERS ping_handler empty_object_request) = PyNone.
Proof.
  apply (proj1 (proj2 (@falsy_body_dropped RELAYED_HEADERS ping_handler
                         empty_object_request eq_refl)) (PyDict []));
    reflexivity.
Defined.

(** X18: With POST, PUT or PATCH, a body that decodes to a non-empty JSON
    value that is not an object is passed as the content argument, with no
    JSON argument.  Unless the value is a string, the client refuses it:
    the call raises, the remote is not reached, and the exception leaves
    the handler, which returns no response. *)
Theorem decoded_non_object_body allowed h request remote v :
  str_in (req_method request) BODY_METHODS = true ->
  req_json request = Some v -> truthy v = true -> is_dict v = false ->
  let o := outbound allowed h request in
  out_json o = PyNone /\ out_content o = v /\
  ((forall s, v <> PyStr s) -> (forall b, v <> PyBytes b) ->
   exists e, client_request o remote = Raise e /\
             handler allowed h request remote = Uncaught e).
Proof.
  intros Hmethod Hjson Htruthy Hdict. cbn zeta.
  assert (Hj : out_json (outbound allowed h request) = PyNone).
  { cbn [outbound out_json]. unfold json_argument.
    now rewrite (read_body_json request Hmethod Hjson), Htruthy, Hdict. }
  assert (Hc : out_content (outbound allowed h request) = v).
  { cbn [outbound out_content]. unfold content_argument.
    now rewrite (read_body_json request Hmethod Hjson), Htruthy, Hdict. }
  split; [exact Hj|]. split; [exact Hc|].
  intros Hstr Hbytes. unfold handler, client_request. rewrite Hj, Hc.
  destruct v as [|b|n|f|s|bs|l|d]; cbn [check_content];
    try (eexists; split; reflexivity).
  - discriminate.
  - now destruct (Hstr s).
  - now destruct (Hbytes bs).
Qed.

Lemma decoded_non_object_body_witness :
  exists e,
    client_request (outbound RELAYED_HEADERS ping_handler array_request)
                   (fun _ => Replied pong) = Raise e /\
    handler RELAYED_HEADERS ping_handler array_request (fun _ => Replied pong)
      = Uncaught e.
Proof.
  apply (proj2 (proj2 (@decoded_non_object_body RELAYED_HEADERS ping_handler
                         array_request (fun _ => Replied pong) (PyList [PyInt 1])
                         eq_refl eq_refl eq_refl eq_refl)));
    intros ? [=].
Defined.

(** X19: The handler raises the gateway-side error exactly when the call to
    the remote ends in a request error (connection, timeout): status 502,
    the error in the detail.  It raises no other HTTP error; every other
    exception leaves it as it is. *)
Theorem bad_gateway_on_request_error allowed h request remote :
  (forall status detail,
      handler allowed h request remote = HTTPException status detail <->
      exists e,
        client_request (outbound allowed h request) remote = Ok (RequestError e) /\
        status = 502%Z /\ detail = "无法连接到 FastAPI 服务: " ++ e) /\
  (forall e,
      client_request (outbound allowed h request) remote = Raise e ->
      handler allowed h request remote = Uncaught e).
Proof.
  unfold handler. split.
  - intros status detail.
    destruct (client_request (outbound allowed h request) remote) as [[e|response]|e].
    + unfold bad_gateway. split.
      * intros [= <- <-]. now exists e.
      * now intros (e' & [= <-] & -> & ->).
    + unfold json_response. split.
      * destruct (json_finite (response_content response)); discriminate.
      * intros (e' & [=] & _).
    + split; [discriminate|]. intros (e' & [=] & _).
  - now intros e ->.
Qed.

Lemma bad_gateway_on_request_error_witness :
  handler RELAYED_HEADERS ping_handler user_request
          (fun _ => RequestError "connection refused")
    = HTTPException 502 ("无法连接到 FastAPI 服务: " ++ "connection refused").
Proof.
  apply (proj1 (@bad_gateway_on_request_error RELAYED_HEADERS ping_handler
                  user_request (fun _ => RequestError "connection refused"))).
  exists "connection refused". repeat split.
Defined.




(* ================================================================== *)
(** * Further properties of fetch and start-up *)

(** X13: The fetch of mcp_config_standalone.py succeeds exactly on status 200
    with a decodable body, and reports every other status with the status
    and the text of the reply.  Whenever it succeeds, the fetch of
    run_mcp_server.py succeeds on the same exchange with the same
    document. *)
Theorem get_openapi_schema_only_200 base_url reply :
  (forall schema,
      get_openapi_schema base_url reply = Ok schema <->
      exists text, reply = StandaloneReplied 200 text (Some schema)) /\
  (forall schema,
      get_openapi_schema base_url reply = Ok schema ->
      fetch_openapi_schema base_url (as_fetch_reply reply) = Ok schema) /\
  (forall status text body,
      reply = StandaloneReplied status text body -> status <> 200%Z ->
      get_openapi_schema base_url reply = Raise (SchemaUnavailable status text)).
Proof.
  split; [|split].
  - intros schema. split.
    + destruct reply as [e|status text [body|]]; cbn; try discriminate;
        destruct (Z.eqb_spec status 200) as [->|Hne]; try discriminate.
      intros [= ->]. now exists text.
    + now intros [text ->].
  - intros schema.
    destruct reply as [e|status text [body|]]; cbn; try discriminate;
      destruct (Z.eqb_spec status 200) as [->|Hne]; try discriminate.
    now intros [= ->].
  - intros status text body -> Hne. cbn.
    apply Z.eqb_neq in Hne. now rewrite Hne.
Qed.

Lemma get_openapi_schema_only_200_witness :
  get_openapi_schema FASTAPI_SERVICE_URL
    (StandaloneReplied 200 "{}" (Some demo_schema)) = Ok demo_schema /\
  fetch_openapi_schema FASTAPI_SERVICE_URL
    (as_fetch_reply (StandaloneReplied 200 "{}" (Some demo_schema))) = Ok demo_schema /\
  get_openapi_schema FASTAPI_SERVICE_URL
    (StandaloneReplied 201 "{}" (Some demo_schema)) = Raise (SchemaUnavailable 201 "{}").
Proof.
  assert (Hok : get_openapi_schema FASTAPI_SERVICE_URL
                  (StandaloneReplied 200 "{}" (Some demo_schema)) = Ok demo_schema).
  { apply (proj1 (get_openapi_schema_only_200 FASTAPI_SERVICE_URL _)).
    now exists "{}". }
  split; [exact Hok|]. split.
  - exact (proj1 (proj2 (get_openapi_schema_only_200 FASTAPI_SERVICE_URL _)) _ Hok).
  - apply (proj2 (proj2 (get_openapi_schema_only_200 FASTAPI_SERVICE_URL _))
             201%Z "{}" (Some demo_schema)); [reflexivity | discriminate].
Defined.

Lemma routable_none_refused S :
  routable S = true <-> snd (registered_entries (paths S)) = None.
Proof.
  unfold routable. induction (paths S) as [|entry entries IH];
    cbn [forallb registered_entries]; [now split|].
  destruct (entry_refused entry); [split; discriminate|].
  cbn [andb]. rewrite IH. now destruct (registered_entries entries).
Qed.

(** [setup_mcp_server] once the document is fetched. *)
Lemma setup_mcp_server_fetched status schema mcp_mount :
  is_success status = true ->
  setup_mcp_server (FetchReplied status (Some schema)) mcp_mount =
  match snd (registered_entries (paths schema)) with
  | None => Ok (mcp_mount (proxy_app_of schema))
  | Some e => Raise e
  end.
Proof.
  intros Hok. unfold setup_mcp_server, proxy_app_of.
  cbn [fetch_openapi_schema]. rewrite Hok.
  rewrite create_proxy_routes_spec, build_registered.
  destruct (registered_entries (paths schema)) as [before [e|]]; reflexivity.
Qed.

(** X14: [main] hands an application to the server exactly when the schema
    reply has a 2xx status and a decodable body, the router accepts every
    path of the document and the MCP layer accepts the proxy application;
    what the MCP layer is given then carries the title of the document and
    exactly the routes of the builder, and the server is started on
    0.0.0.0, port 8000.  [main] ends with the exception of the router
    exactly when the reply has a 2xx status and a decodable body and a path
    of the document is refused. *)
Theorem main_serves_the_built_application reply mcp_mount :
  (forall app host port,
      main reply mcp_mount = Serving app host port <->
      exists status schema,
        reply = FetchReplied status (Some schema) /\ (200 <= status <= 299)%Z /\
        routable schema = true /\
        mcp_mount (proxy_app_of schema) = Some app /\
        host = "0.0.0.0" /\ port = 8000%Z) /\
  (forall e,
      main reply mcp_mount = Crashed e <->
      exists status schema,
        reply = FetchReplied status (Some schema) /\ (200 <= status <= 299)%Z /\
        snd (registered_entries (paths schema)) = Some e).
Proof.
  unfold main. split.
  - intros app host port. split.
    + destruct reply as [e|status [schema|]].
      * cbn. discriminate.
      * destruct (is_success status) eqn:Hok.
        -- rewrite setup_mcp_server_fetched by exact Hok.
           destruct (snd (registered_entries (paths schema))) eqn:Hrefused;
             [discriminate|].
           destruct (mcp_mount (proxy_app_of schema)) as [app'|] eqn:Hmount;
             [|discriminate].
           intros [= <- <- <-]. exists status, schema.
           apply is_success_range in Hok. apply routable_none_refused in Hrefused.
           now repeat split.
        -- unfold setup_mcp_server. cbn [fetch_openapi_schema]. rewrite Hok.
           discriminate.
      * unfold setup_mcp_server. cbn [fetch_openapi_schema].
        destruct (is_success status); discriminate.
    + intros (status & schema & -> & Hrange & Hroutable & Hmount & -> & ->).
      apply is_success_range in Hrange. apply routable_none_refused in Hroutable.
      now rewrite setup_mcp_server_fetched, Hroutable, Hmount by exact Hrange.
  - intros e. split.
    + destruct reply as [e'|status [schema|]].
      * cbn. discriminate.
      * destruct (is_success status) eqn:Hok.
        -- rewrite setup_mcp_server_fetched by exact Hok.
           destruct (snd (registered_entries (paths schema))) as [e'|] eqn:Hrefused.
           ++ intros [= <-]. exists status, schema.
              apply is_success_range in Hok. now repeat split.
           ++ destruct (mcp_mount (proxy_app_of schema)); discriminate.
        -- unfold setup_mcp_server. cbn [fetch_openapi_schema]. rewrite Hok.
           discriminate.
      * unfold setup_mcp_server. cbn [fetch_openapi_schema].
        destruct (is_success status); discriminate.
    + intros (status & schema & -> & Hrange & Hrefused).
      apply is_success_range in Hrange.
      now rewrite setup_mcp_server_fetched, Hrefused by exact Hrange.
Qed.

Lemma main_serves_the_built_application_witness :
  main (FetchReplied 200 (Some demo_schema)) Some =
  Serving (proxy_app_of demo_schema) "0.0.0.0" 8000.
Proof.
  apply (proj1 (main_serves_the_built_application
                  (FetchReplied 200 (Some demo_schema)) Some)
           (proxy_app_of demo_schema) "0.0.0.0" 8000%Z).
  exists 200%Z, demo_schema. repeat split; lia.
Defined.

(* ================================================================== *)
(** * Relaying twice *)

(** X15: The forwarded query names every parameter once, and a call that
    carries the forwarded query as its own query forwards it unchanged. *)
Theorem forwarded_query_is_stable allowed h request :
  let forwarded := out_params (outbound allowed h request) in
  dict_wf forwarded /\
  out_params (outbound allowed h (with_query request forwarded)) = forwarded.
Proof.
  cbn zeta. cbn [outbound out_params]. rewrite !relay_query_dict.
  cbn [with_query req_query_params]. unfold qp_dict. cbn [qp_list].
  split; [apply dict_of_items_wf|].
  apply dict_of_items_NoDup. apply dict_of_items_wf.
Qed.

Lemma relayed_headers_lowercase response :
  lowercase_names (relay_response_headers response) = true.
Proof.
  rewrite relay_response_headers_map. unfold lowercase_names.
  apply forallb_forall. intros [k v] [k' [[= <- _] Hk']]%in_map_iff. cbn [fst].
  apply first_occurrences_In in Hk' as [Hk' _]. unfold header_names in Hk'.
  apply in_map_iff in Hk' as [kv [<- _]].
  rewrite str_lower_idempotent. apply String.eqb_refl.
Qed.

Lemma relayed_headers_distinct response :
  NoDup (map fst (relay_response_headers response)).
Proof.
  rewrite relay_response_headers_map, map_map. cbn [fst]. rewrite map_id.
  apply first_occurrences_NoDup.
Qed.

(** X16: The relayed response headers have lower-case names, each once, and a
    reply that carries the relayed headers as its own headers is relayed
    with exactly these headers: a second gateway behind the first changes
    nothing in them. *)
Theorem relayed_response_headers_are_stable response :
  let relayed := relay_response_headers response in
  lowercase_names relayed = true /\
  NoDup (map fst relayed) /\
  relay_response_headers (with_response_headers response relayed) = relayed.
Proof.
  cbn zeta. split; [apply relayed_headers_lowercase|].
  split; [apply relayed_headers_distinct|].
  apply (relay_response_headers_verbatim
           (with_response_headers response (relay_response_headers response))).
  - apply relayed_headers_lowercase.
  - apply relayed_headers_distinct.
Qed.
